(** * covreport: coverage report generator

    A shallow embedding of the report code of covreport:
    - [reporter/internal/html.go] (package [internal]: [GoProject.Report],
      [TemplateData.AddDir], [TemplateData.AddFile],
      [NewTemplateListItemData], [WriteHTMLEscapedLine],
      [WriteHTMLEscapedCode]),
    - [reporter/html.go] (package [reporter], the earlier string-building
      reporter: [GoDir.write], [GoFile.write], [openHeadingHTML],
      [fileItemHTML]),
    - the command-line layer ([ParseCutlines]).

    Go [int] values are modelled by [Z]: the only arithmetic performed on
    them is [idx + 1] on a slice index and order comparisons, neither of which
    can wrap.  Go [string]s are byte sequences and are modelled by [string]
    (a list of 8-bit [ascii] characters).  [float64] is modelled by the
    IEEE-754 binary64 instance of [spec_float]. *)

From Stdlib Require Import ZArith List String Ascii Bool Lia Sorted FinFun.
From Stdlib Require Import DecimalString.
From Stdlib Require Import Floats.
Import ListNotations.

Local Open Scope string_scope.
Local Open Scope Z_scope.

(** ** Go strings *)

Module GoStrings.

(** The double-quote and line-feed bytes. *)
Definition dquote : ascii := ascii_of_nat 34.
Definition newline : ascii := ascii_of_nat 10.
Definition tab : ascii := ascii_of_nat 9.
Definition dq : string := String dquote EmptyString.

(** [fmt]'s [%d] verb on an [int]. *)
Definition itoa (z : Z) : string := NilZero.string_of_int (Z.to_int z).

(** [strings.Split(s, sep)] for a one-byte separator, which is what every
    call site passes (a line feed in the reporters, a comma in the command
    line).  The result always has [1 + count sep s] fragments. *)
Fixpoint Split (s : string) (sep : ascii) : list string :=
  match s with
  | EmptyString => [EmptyString]
  | String c s' =>
      if Ascii.eqb c sep then EmptyString :: Split s' sep
      else match Split s' sep with
           | [] => [String c EmptyString]
           | frag :: frags => String c frag :: frags
           end
  end.

(** [strings.Join(frags, sep)] for a one-byte separator. *)
Fixpoint Join (frags : list string) (sep : ascii) : string :=
  match frags with
  | [] => EmptyString
  | [frag] => frag
  | frag :: frags' => frag ++ String sep (Join frags' sep)
  end.

(** [strings.HasPrefix(s, p)]. *)
Fixpoint HasPrefix (s p : string) : bool :=
  match p, s with
  | EmptyString, _ => true
  | String _ _, EmptyString => false
  | String a p', String b s' => Ascii.eqb a b && HasPrefix s' p'
  end.

(** [strings.ReplaceAll(s, old, new)] for a non-empty [old]: the
    occurrences of [old] are replaced left to right without overlap.
    [skip] counts the bytes of the occurrence being replaced that are still
    to be consumed. *)
Fixpoint replace_from (old new : string) (skip : nat) (s : string) : string :=
  match s with
  | EmptyString => EmptyString
  | String c s' =>
      match skip with
      | S k => replace_from old new k s'
      | O =>
          if HasPrefix s old
          then new ++ replace_from old new (String.length old - 1) s'
          else String c (replace_from old new O s')
      end
  end.

Definition ReplaceAll (s old new : string) : string := replace_from old new O s.

(** The byte value of a character. *)
Definition byte (c : ascii) : N := N_of_ascii c.

Definition in_range (lo hi : N) (c : ascii) : bool :=
  (N.leb lo (byte c) && N.leb (byte c) hi)%bool.

(** A UTF-8 continuation byte, [0x80..0xBF]. *)
Definition is_cont (c : ascii) : bool := in_range 128 191 c.

(** The size and the accepted range of the second byte for a leading byte,
    as in the [first] and [acceptRanges] tables of [unicode/utf8]; [None]
    for an ASCII byte or an invalid leading byte. *)
Definition utf8_first (c : ascii) : option (nat * (N * N)) :=
  let b := byte c in
  if N.ltb b 194 then None                                  (* 00..7F ASCII, 80..C1 invalid *)
  else if N.leb b 223 then Some (2%nat, (128, 191)%N)       (* C2..DF *)
  else if N.eqb b 224 then Some (3%nat, (160, 191)%N)       (* E0 *)
  else if N.eqb b 237 then Some (3%nat, (128, 159)%N)       (* ED *)
  else if N.leb b 239 then Some (3%nat, (128, 191)%N)       (* E1..EC, EE..EF *)
  else if N.eqb b 240 then Some (4%nat, (144, 191)%N)       (* F0 *)
  else if N.leb b 243 then Some (4%nat, (128, 191)%N)       (* F1..F3 *)
  else if N.eqb b 244 then Some (4%nat, (128, 143)%N)       (* F4 *)
  else None.                                                (* F5..FF invalid *)

(** The width in bytes of the rune that starts a non-empty string, as
    [utf8.DecodeRuneInString] reports it: an ill-formed or truncated
    sequence is one byte wide. *)
Definition rune_width (s : string) : nat :=
  match s with
  | EmptyString => 0%nat
  | String s0 rest =>
      match utf8_first s0 with
      | None => 1%nat
      | Some (sz, (lo, hi)) =>
          match rest with
          | EmptyString => 1%nat
          | String s1 rest1 =>
              if negb (in_range lo hi s1) then 1%nat
              else if (sz <=? 2)%nat then 2%nat
              else match rest1 with
                   | EmptyString => 1%nat
                   | String s2 rest2 =>
                       if negb (is_cont s2) then 1%nat
                       else if (sz <=? 3)%nat then 3%nat
                       else match rest2 with
                            | EmptyString => 1%nat
                            | String s3 _ =>
                                if negb (is_cont s3) then 1%nat else 4%nat
                            end
                   end
          end
      end
  end.

(** [filepath.Base(path)] with [/] as the separator: trailing separators
    are dropped, then the last element is returned; an empty path gives
    ["."], a path made of separators only gives ["/"]. *)
Definition slash : ascii := ascii_of_nat 47.

Fixpoint strip_trailing (s : string) : string :=
  match s with
  | EmptyString => EmptyString
  | String c s' =>
      match strip_trailing s' with
      | EmptyString => if Ascii.eqb c slash then EmptyString else String c EmptyString
      | t => String c t
      end
  end.

Fixpoint last_element (s : string) : string :=
  match s with
  | EmptyString => EmptyString
  | String c s' =>
      if existsb (Ascii.eqb slash) (list_ascii_of_string s') then last_element s'
      else if Ascii.eqb c slash then s' else s
  end.

Definition Base (path : string) : string :=
  match path with
  | EmptyString => "."
  | _ =>
      match strip_trailing path with
      | EmptyString => "/"
      | p => last_element p
      end
  end.

End GoStrings.

(** ** Coverage profile blocks *)

Module Cover.

(** [cover.ProfileBlock] of [golang.org/x/tools/cover]. *)
Record ProfileBlock : Type := mkBlock {
  StartLine : Z;
  StartCol : Z;
  EndLine : Z;
  EndCol : Z;
  NumStmt : Z;
  Count : Z
}.

(** A block given by its line range and execution count, the columns and
    the statement count being irrelevant to the line annotators. *)
Definition block (startLine endLine count : Z) : ProfileBlock :=
  mkBlock startLine 0 endLine 0 1 count.

End Cover.


(** ** float64 *)

Module Float64.

(** IEEE-754 binary64 values; [prec = 53] and [emax = 1024]. *)
Definition float64 : Type := spec_float.

(** The conversion [float64(n)] of an [int]: round to nearest, ties to
    even. *)
Definition of_int (n : Z) : float64 := binary_normalize prec emax n 0 false.

Definition zero : float64 := S754_zero false.
Definition div (x y : float64) : float64 := SF64div x y.
Definition mul (x y : float64) : float64 := SF64mul x y.

(** The comparison operators [<], [<=], [>], [>=] of Go on [float64]:
    each is false as soon as one operand is a NaN. *)
Definition ltb (x y : float64) : bool := SFltb x y.
Definition leb (x y : float64) : bool := SFleb x y.
Definition gtb (x y : float64) : bool := SFltb y x.

End Float64.

(** ** Package [config] *)

Module Config.

Module Cutlines.
(** [config.Cutlines]. *)
Record t : Type := mk { Safe : Float64.float64; Warning : Float64.float64 }.
End Cutlines.

End Config.

(** ** Package [internal]: the template-based reporter *)

Module Internal.
Import GoStrings Cover.

(** *** The project tree

    The declarations of [GoListItem], [GoFile], [GoDir] and [GoProject] are
    not part of the files at hand; the records below hold the fields that
    the report code reads. *)

Module GoListItem.
Record t : Type := mk {
  ID : string;
  Title : string;
  StmtCoveredCount : Z;
  StmtCount : Z
}.
End GoListItem.

Module GoFile.
(** [GoFile] embeds a [*GoListItem]. *)
Record t : Type := mk {
  Item : GoListItem.t;
  ABSPath : string;
  RelPkgPath : string;
  Profile : list ProfileBlock
}.
End GoFile.

Module GoDir.
#[local] Set Warnings "-register-all".
(** [GoDir] embeds a [*GoListItem]; [SubDirs] and [Files] are slices of
    pointers, owned by the directory. *)
Inductive t : Type := mk {
  Item : GoListItem.t;
  RelPkgPath : string;
  SubDirs : list t;
  Files : list GoFile.t
}.
End GoDir.

Module GoProject.
(** [Root] stands for the result of the accessor [gp.Root()]. *)
Record t : Type := mk {
  RootPath : string;
  Cutlines : Config.Cutlines.t;
  Root : GoDir.t
}.
End GoProject.

(** *** Template data *)

Module TemplateListItemData.
(** [Progress] and [Percent] hold the [float64] that the source hands to
    the [%.1f] verb. *)
Record t : Type := mk {
  ClassName : string;
  ID : string;
  Title : string;
  Progress : Float64.float64;
  Percent : Float64.float64;
  NumStmtCovered : Z;
  NumStmt : Z
}.
End TemplateListItemData.

Module TemplateViewData.
(** [Percent] holds the [float64] that the source hands to the [%.1f]
    verb.  The breadcrumb slice [Links] is left out: nothing stated
    below reads it. *)
Record t : Type := mk {
  ID : string;
  Percent : Float64.float64;
  NumStmtCovered : Z;
  NumStmt : Z;
  Items : list TemplateListItemData.t;
  Lines : string;
  IsDir : bool
}.

Definition with_Items (items : list TemplateListItemData.t) (v : t) : t :=
  mk (ID v) (Percent v) (NumStmtCovered v) (NumStmt v) items (Lines v) (IsDir v).

Definition with_Lines (lines : string) (v : t) : t :=
  mk (ID v) (Percent v) (NumStmtCovered v) (NumStmt v) (Items v) lines (IsDir v).
End TemplateViewData.

Module TemplateData.
(** [Views] is a slice of pointers: a view stays reachable for update
    through the index at which it was appended. *)
Record t : Type := mk {
  Views : list TemplateViewData.t;
  InitialID : string;
  Cutlines : Config.Cutlines.t
}.
End TemplateData.

(** Errors returned by the reporter. *)
Inductive error : Type :=
| CantRead (relPkgPath : string).

Inductive result (A : Type) : Type :=
| Ok (a : A)
| Err (e : error).
Arguments Ok {A} a.
Arguments Err {A} e.

Definition bind {A B : Type} (r : result A) (k : A -> result B) : result B :=
  match r with
  | Ok a => k a
  | Err e => Err e
  end.

Notation "x <- r ;; k" := (bind r (fun x => k))
  (at level 61, r at next level, right associativity).

(** *** Escaping and line rendering *)

(** The bytes written for one byte [b] visited by [WriteHTMLEscapedCode]. *)
Definition escape_byte (b : ascii) : string :=
  if Ascii.eqb b ">" then "&gt;"
  else if Ascii.eqb b "<" then "&lt;"
  else if Ascii.eqb b "&" then "&amp;"
  else if Ascii.eqb b tab then "    "
  else String b EmptyString.

(** [for i := range line { switch b := line[i]; b { ... } }]: the range
    clause steps over the runes of [line], so [i] is the index of the first
    byte of each rune and only that byte is written.  [pending] counts the
    remaining bytes of the current rune. *)
Fixpoint escape_from (pending : nat) (line : string) : string :=
  match line with
  | EmptyString => EmptyString
  | String b rest =>
      match pending with
      | S k => escape_from k rest
      | O => escape_byte b ++ escape_from (rune_width line - 1) rest
      end
  end.

(** [WriteHTMLEscapedCode]: the bytes appended to the writer. *)
Definition WriteHTMLEscapedCode (line : string) : string := escape_from O line.

(** [WriteHTMLEscapedLine]: the bytes appended to the writer; [count] is
    the [*int] argument, [None] for [nil]. *)
Definition WriteHTMLEscapedLine (lineNumber : Z) (count : option Z) (line : string) : string :=
  (match count with
   | None =>
       "<div class=" ++ dq ++ "line-number" ++ dq ++ ">" ++ itoa lineNumber
       ++ "</div><div class=" ++ dq ++ "covered-count" ++ dq ++ "></div><pre class="
       ++ dq ++ "line" ++ dq ++ ">"
   | Some c =>
       if Z.eqb c 0 then
         "<div class=" ++ dq ++ "line-number" ++ dq ++ ">" ++ itoa lineNumber
         ++ "</div><div class=" ++ dq ++ "covered-count uncovered" ++ dq
         ++ "></div><pre class=" ++ dq ++ "line uncovered" ++ dq ++ ">"
       else
         "<div class=" ++ dq ++ "line-number" ++ dq ++ ">" ++ itoa lineNumber
         ++ "</div><div class=" ++ dq ++ "covered-count covered" ++ dq ++ ">"
         ++ itoa c ++ "x</div><pre class=" ++ dq ++ "line covered" ++ dq ++ ">"
   end)
  ++ WriteHTMLEscapedCode line
  ++ "</pre>" ++ String newline EmptyString.

(** *** The line annotator of [AddFile] *)

(** One iteration of the loop over the lines: from the cursor
    [idxProfile] and the line number, the new cursor and the selected
    [count] pointer. *)
Definition select_count (Profile : list ProfileBlock) (idxProfile : nat) (lineNumber : Z)
  : nat * option Z :=
  let numProfileBlock := List.length Profile in
  if (idxProfile <? numProfileBlock)%nat then
    match nth_error Profile idxProfile with
    | None => (idxProfile, None)
    | Some profile0 =>
        let '(idxProfile, profile) :=
          if EndLine profile0 <? lineNumber then
            let idxProfile := S idxProfile in
            if (idxProfile <? numProfileBlock)%nat
            then (idxProfile, nth idxProfile Profile profile0)
            else (idxProfile, profile0)
          else (idxProfile, profile0) in
        if (EndLine profile >=? lineNumber) && (StartLine profile <=? lineNumber)
        then (idxProfile, option_map Count (nth_error Profile idxProfile))
        else (idxProfile, None)
    end
  else (idxProfile, None).

(** The loop [for idx, line := range strings.Split(string(src), "\n")]:
    the arguments of the successive calls to [WriteHTMLEscapedLine], with
    [lineNumber = idx + 1]. *)
Fixpoint line_calls (Profile : list ProfileBlock) (idxProfile : nat) (lineNumber : Z)
  (lines : list string) : list (Z * option Z * string) :=
  match lines with
  | [] => []
  | line :: lines' =>
      let '(idxProfile', count) := select_count Profile idxProfile lineNumber in
      (lineNumber, count, line) :: line_calls Profile idxProfile' (lineNumber + 1) lines'
  end.

Definition file_calls (Profile : list ProfileBlock) (src : string) : list (Z * option Z * string) :=
  line_calls Profile O 1 (Split src newline).

(** The contents of the buffer after the loop, stored in [view.Lines]. *)
Definition file_lines (Profile : list ProfileBlock) (src : string) : string :=
  String.concat EmptyString
    (map (fun '(lineNumber, count, line) => WriteHTMLEscapedLine lineNumber count line)
       (file_calls Profile src)).




(** *** The reporter

    [Percent] stands for the method [GoListItem.Percent], whose body is not
    part of the files at hand, and [ReadFile] for [os.ReadFile] on the file
    system of the run ([None] when the read fails). *)

Section Reporter.

Variable Percent : GoListItem.t -> Float64.float64.
Variable ReadFile : string -> option string.

(** [NewTemplateListItemData]. *)
Definition NewTemplateListItemData (item : GoListItem.t) (cutlines : Config.Cutlines.t)
  : TemplateListItemData.t :=
  let percent := Percent item in
  let className :=
    if GoListItem.StmtCount item >? 0 then
      if Float64.ltb percent (Config.Cutlines.Warning cutlines) then "danger"
      else if Float64.ltb percent (Config.Cutlines.Safe cutlines) then "warning"
      else "safe"
    else "" in
  TemplateListItemData.mk className (GoListItem.ID item) (GoListItem.Title item)
    percent percent (GoListItem.StmtCoveredCount item) (GoListItem.StmtCount item).

(** [td.Views = append(td.Views, view)]. *)
Definition append_view (view : TemplateViewData.t) (td : TemplateData.t) : TemplateData.t :=
  TemplateData.mk (TemplateData.Views td ++ [view])%list
    (TemplateData.InitialID td) (TemplateData.Cutlines td).

(** An assignment through the pointer [view] stored at index [at_] of
    [td.Views]. *)
Fixpoint update_nth {A : Type} (at_ : nat) (f : A -> A) (l : list A) : list A :=
  match l, at_ with
  | [], _ => []
  | x :: l', O => f x :: l'
  | x :: l', S at_' => x :: update_nth at_' f l'
  end.

Definition update_view (at_ : nat) (f : TemplateViewData.t -> TemplateViewData.t)
  (td : TemplateData.t) : TemplateData.t :=
  TemplateData.mk (update_nth at_ f (TemplateData.Views td))
    (TemplateData.InitialID td) (TemplateData.Cutlines td).

(** [view.Items = append(view.Items, item)]. *)
Definition append_item (item : TemplateListItemData.t) (view : TemplateViewData.t)
  : TemplateViewData.t :=
  TemplateViewData.with_Items (TemplateViewData.Items view ++ [item])%list view.

(** [TemplateData.AddFile]. *)
Definition AddFile (file : GoFile.t) (td : TemplateData.t) : result TemplateData.t :=
  match ReadFile (GoFile.ABSPath file) with
  | None => Err (CantRead (GoFile.RelPkgPath file))
  | Some src =>
      let item := GoFile.Item file in
      let view :=
        TemplateViewData.mk (GoListItem.ID item) (Percent item)
          (GoListItem.StmtCoveredCount item) (GoListItem.StmtCount item)
          [] EmptyString false in
      let at_ := List.length (TemplateData.Views td) in
      let td := append_view view td in
      Ok (update_view at_
            (TemplateViewData.with_Lines (file_lines (GoFile.Profile file) src)) td)
  end.

(** The loop [for _, file := range dir.Files] of [AddDir]; [at_] is the
    index of the directory's view. *)
Fixpoint AddDir_files (at_ : nat) (files : list GoFile.t) (td : TemplateData.t)
  : result TemplateData.t :=
  match files with
  | [] => Ok td
  | file :: files' =>
      td <- AddFile file td ;;
      AddDir_files at_ files'
        (update_view at_
           (append_item (NewTemplateListItemData (GoFile.Item file) (TemplateData.Cutlines td)))
           td)
  end.

(** The loop [for _, subDir := range dir.SubDirs] of [AddDir]; [AddDir]
    stands for the recursive call and [at_] is the index of the directory's
    view. *)
Definition AddDir_subDirs (AddDir : GoDir.t -> TemplateData.t -> result TemplateData.t)
  (at_ : nat) : list GoDir.t -> TemplateData.t -> result TemplateData.t :=
  fix loop (subDirs : list GoDir.t) (td : TemplateData.t) {struct subDirs} :=
    match subDirs with
    | [] => Ok td
    | subDir :: subDirs' =>
        td <- AddDir subDir td ;;
        loop subDirs'
          (update_view at_
             (append_item
                (NewTemplateListItemData (GoDir.Item subDir) (TemplateData.Cutlines td)))
             td)
    end.

(** [TemplateData.AddDir]. *)
Fixpoint AddDir (dir : GoDir.t) (td : TemplateData.t) {struct dir} : result TemplateData.t :=
  match dir with
  | GoDir.mk item _ SubDirs Files =>
      let view :=
        TemplateViewData.mk (GoListItem.ID item) (Percent item)
          (GoListItem.StmtCoveredCount item) (GoListItem.StmtCount item)
          [] EmptyString true in
      let at_ := List.length (TemplateData.Views td) in
      let td := append_view view td in
      td <- AddDir_subDirs AddDir at_ SubDirs td ;;
      AddDir_files at_ Files td
  end.

(** The loop [for len(initialDir.SubDirs) == 1 && len(initialDir.Files) == 0]
    of [Report]; it ends because the tree is finite. *)
Fixpoint initialDir_loop (initialDir : GoDir.t) : GoDir.t :=
  match initialDir with
  | GoDir.mk _ _ [subDir] [] => initialDir_loop subDir
  | _ => initialDir
  end.

(** The directory [initialDir] that [Report] passes to [AddDir]. *)
Definition initialDir (gp : GoProject.t) : GoDir.t :=
  let initialDir := GoProject.Root gp in
  if String.eqb (GoProject.RootPath gp) "." then initialDir_loop initialDir
  else initialDir.

(** [GoProject.Report], up to the execution of the template: the data
    handed to [tmpl.Execute], or the error returned. *)
Definition Report (gp : GoProject.t) : result TemplateData.t :=
  let initialDir := initialDir gp in
  let data :=
    TemplateData.mk [] (GoListItem.ID (GoDir.Item initialDir)) (GoProject.Cutlines gp) in
  AddDir initialDir data.

End Reporter.

End Internal.

(** ** Package [reporter]: the string-building reporter *)

Module Legacy.
Import GoStrings Cover.

(** The declarations of [GoFile] and [GoDir] of this package are not part
    of the files at hand; the records hold the fields that [write] reads. *)

Module GoFile.
Record t : Type := mk {
  filename : string;
  profile : list ProfileBlock;
  numStmtCovered : Z;
  numStmt : Z
}.
End GoFile.

Module GoDir.
#[local] Set Warnings "-register-all".
Inductive t : Type := mk {
  dirname : string;
  subDirs : list t;
  files : list GoFile.t;
  numStmtCovered : Z;
  numStmt : Z
}.
End GoDir.

(** The [percent] computed by [openHeadingHTML] and handed to its [%.1f]
    verb. *)
Definition openHeadingHTML_percent (numStmtCovered numStmt : Z) : Float64.float64 :=
  if numStmt =? 0 then Float64.zero
  else Float64.mul (Float64.div (Float64.of_int numStmtCovered) (Float64.of_int numStmt))
         (Float64.of_int 100).

(** The [percent] and the [class] computed by [fileItemHTML]. *)
Definition fileItemHTML_vars (numStmtCovered numStmt : Z) : Float64.float64 * string :=
  if numStmt =? 0 then (Float64.zero, EmptyString)
  else
    let percent :=
      Float64.mul (Float64.div (Float64.of_int numStmtCovered) (Float64.of_int numStmt))
        (Float64.of_int 100) in
    if Float64.gtb percent (Float64.of_int 70) then (percent, "safe")
    else if Float64.ltb percent (Float64.of_int 40) then (percent, "danger")
    else (percent, "warning").

Definition fileItemHTML_percent (numStmtCovered numStmt : Z) : Float64.float64 :=
  fst (fileItemHTML_vars numStmtCovered numStmt).

(** One iteration of the loop over the lines in [GoFile.write]: the new
    cursor and the selected [count] pointer. *)
Definition select_count (profile : list ProfileBlock) (idxProfile : nat) (lineNumber : Z)
  : nat * option Z :=
  let numProfileBlock := List.length profile in
  if (idxProfile <? numProfileBlock)%nat then
    match nth_error profile idxProfile with
    | None => (idxProfile, None)
    | Some profile0 =>
        if EndLine profile0 <? lineNumber then
          let idxProfile := S idxProfile in
          if (idxProfile <? numProfileBlock)%nat
          then (idxProfile, option_map Count (nth_error profile idxProfile))
          else (idxProfile, None)
        else (idxProfile, option_map Count (nth_error profile idxProfile))
    end
  else (idxProfile, None).

(** The four chained [strings.ReplaceAll] calls of [GoFile.write]. *)
Definition escape (code : string) : string :=
  let code := ReplaceAll code ">" "&gt;" in
  let code := ReplaceAll code "<" "&lt;" in
  let code := ReplaceAll code "&" "&amp;" in
  ReplaceAll code (String tab EmptyString) "    ".

(** The loop over the lines of [GoFile.write]: for each line its number,
    the selected [count] and the escaped code that are formatted. *)
Fixpoint line_calls (profile : list ProfileBlock) (idxProfile : nat) (lineNumber : Z)
  (lines : list string) : list (Z * option Z * string) :=
  match lines with
  | [] => []
  | code :: lines' =>
      let '(idxProfile', count) := select_count profile idxProfile lineNumber in
      (lineNumber, count, escape code) :: line_calls profile idxProfile' (lineNumber + 1) lines'
  end.

Definition file_calls (profile : list ProfileBlock) (src : string) : list (Z * option Z * string) :=
  line_calls profile O 1 (Split src newline).

(** The identifiers assigned by [GoDir.write]: each node of the tree under
    [dir], named by its [dirname] or [filename], with the [id] under which its
    view is written; [id] is the identifier of [dir] itself. *)
Fixpoint write_ids (dir : GoDir.t) (id : string) {struct dir} : list (string * string) :=
  match dir with
  | GoDir.mk dirname subDirs files _ _ =>
      (dirname, id)
      :: List.app
           (flat_map
              (fun subDir =>
                 let subDirBasename := Base (GoDir.dirname subDir) in
                 let subDirID := id ++ "-" ++ subDirBasename in
                 write_ids subDir subDirID)
              subDirs)
           (map
              (fun file =>
                 let fileBasename := Base (GoFile.filename file) in
                 (GoFile.filename file, id ++ "-" ++ fileBasename))
              files)
  end.

(** [GoDirs.Report] starts [write] at the root with the identifier ["root"]. *)
Definition report_ids (root : GoDir.t) : list (string * string) := write_ids root "root".

End Legacy.

(** ** The command line *)

Module CLI.
Import GoStrings.

Section ParseCutlines.

(** [strconv.ParseFloat(s, 64)]: the value, or the error when [err != nil]. *)
Variable NumError : Type.
Variable ParseFloat : string -> Float64.float64 + NumError.

(** What a call comes to: a value, an error, or a run-time panic (an index
    out of range). *)
Inductive outcome (A : Type) : Type :=
| Return (a : A)
| Fail (err : NumError)
| Panic.
Arguments Return {A} a.
Arguments Fail {A} err.
Arguments Panic {A}.

(** [ParseCutlines]. *)
Definition ParseCutlines (cutlines : string) : outcome Config.Cutlines.t :=
  let frags := Split cutlines "," in
  match nth_error frags 0 with
  | None => Panic
  | Some frag0 =>
      match ParseFloat frag0 with
      | inr err => Fail err
      | inl safe =>
          match nth_error frags (List.length frags - 1) with
          | None => Panic
          | Some fragN =>
              match ParseFloat fragN with
              | inr err => Fail err
              | inl warning => Return (Config.Cutlines.mk safe warning)
              end
          end
      end
  end.

End ParseCutlines.

(** [ParseIgnores]; the [nil] slice is the empty list. *)
Definition ParseIgnores (ignores : string) : list string :=
  if String.eqb ignores EmptyString then [] else Split ignores ",".

Arguments Return {NumError A} a.
Arguments Fail {NumError A} err.
Arguments Panic {NumError A}.

End CLI.

(** ** Specification vocabulary *)

Module Props.
Import Cover.

(** The line [lineNumber] lies in the range [[StartLine, EndLine]] of [b]. *)
Definition contains (b : ProfileBlock) (lineNumber : Z) : Prop :=
  StartLine b <= lineNumber <= EndLine b.

Definition containsb (b : ProfileBlock) (lineNumber : Z) : bool :=
  (EndLine b >=? lineNumber) && (StartLine b <=? lineNumber).

(** A block as the profile parser delivers it: [1 <= StartLine <= EndLine]. *)
Definition valid_block (b : ProfileBlock) : Prop :=
  1 <= StartLine b /\ StartLine b <= EndLine b.

(** [b1] ends before [b2] starts: the two line ranges do not overlap and
    are in ascending order. *)
Definition before (b1 b2 : ProfileBlock) : Prop := EndLine b1 < StartLine b2.

(** Valid blocks, sorted in ascending order, no two of them overlapping. *)
Definition sorted_blocks (Profile : list ProfileBlock) : Prop :=
  Forall valid_block Profile /\ Sorted before Profile.


(** The string obtained by writing [f b] for every byte [b] of [s]. *)
Fixpoint map_bytes (f : ascii -> string) (s : string) : string :=
  match s with
  | EmptyString => EmptyString
  | String b s' => f b ++ map_bytes f s'
  end.

Fixpoint forall_bytes (p : ascii -> bool) (s : string) : bool :=
  match s with
  | EmptyString => true
  | String b s' => p b && forall_bytes p s'
  end.

(** The line holds neither [>] nor [<]. *)
Definition no_angle_bracket (line : string) : bool :=
  forall_bytes (fun b => negb (Ascii.eqb b ">") && negb (Ascii.eqb b "<")) line.

(** Every byte of the line is an ASCII byte. *)
Definition ascii_only (line : string) : bool :=
  forall_bytes (fun b => N.ltb (GoStrings.byte b) 128) line.

(** Every rune of the line, as a range clause steps over it, is one byte
    wide. *)
Fixpoint single_byte_runes (line : string) : bool :=
  match line with
  | EmptyString => true
  | String _ rest => Nat.eqb (GoStrings.rune_width line) 1 && single_byte_runes rest
  end.

(** What the four chained replacements of [GoFile.write] make of one byte:
    the [&] of an entity written by an earlier replacement is escaped again by
    the third one. *)
Definition chained_escape_byte (b : ascii) : string :=
  if Ascii.eqb b ">" then "&amp;gt;"
  else if Ascii.eqb b "<" then "&amp;lt;"
  else if Ascii.eqb b "&" then "&amp;"
  else if Ascii.eqb b GoStrings.tab then "    "
  else String b EmptyString.

(** The rank of a class name: danger below warning below safe; the empty
    class name (no classification) has none. *)
Definition class_rank (className : string) : option nat :=
  if String.eqb className "danger" then Some 0%nat
  else if String.eqb className "warning" then Some 1%nat
  else if String.eqb className "safe" then Some 2%nat
  else None.

(** The class name that [NewTemplateListItemData] gives to an item. *)
Definition item_class (Percent : Internal.GoListItem.t -> Float64.float64)
  (item : Internal.GoListItem.t) (cutlines : Config.Cutlines.t) : string :=
  Internal.TemplateListItemData.ClassName
    (Internal.NewTemplateListItemData Percent item cutlines).

(** [display_root d r]: starting at [d] and descending, as long as the
    current directory has exactly one sub-directory and no file, into that
    sub-directory, one stops at [r]. *)
Inductive display_root : Internal.GoDir.t -> Internal.GoDir.t -> Prop :=
| display_stop (d : Internal.GoDir.t) :
    List.length (Internal.GoDir.SubDirs d) <> 1%nat \/ Internal.GoDir.Files d <> [] ->
    display_root d d
| display_descend (d subDir r : Internal.GoDir.t) :
    Internal.GoDir.SubDirs d = [subDir] ->
    Internal.GoDir.Files d = [] ->
    display_root subDir r ->
    display_root d r.

(** The nodes of a tree: directories and files. *)
Inductive node : Type :=
| NDir (dir : Internal.GoDir.t)
| NFile (file : Internal.GoFile.t).

(** The nodes reachable from [dir] in pre-order: [dir] first, then the
    nodes of each sub-directory in turn, then the files of [dir]. *)
Fixpoint preorder (dir : Internal.GoDir.t) : list node :=
  match dir with
  | Internal.GoDir.mk _ _ SubDirs Files =>
      NDir dir :: List.app (flat_map preorder SubDirs) (map NFile Files)
  end.

(** The files reachable from [dir]. *)
Fixpoint files_under (dir : Internal.GoDir.t) : list Internal.GoFile.t :=
  match dir with
  | Internal.GoDir.mk _ _ SubDirs Files => List.app (flat_map files_under SubDirs) Files
  end.

Section Views.

Variable Percent : Internal.GoListItem.t -> Float64.float64.
Variable ReadFile : string -> option string.
Variable cutlines : Config.Cutlines.t.

(** The view of a directory: its identifier and counts, and one list item
    per child, sub-directories first. *)
Definition dir_view (dir : Internal.GoDir.t) : Internal.TemplateViewData.t :=
  let item := Internal.GoDir.Item dir in
  Internal.TemplateViewData.mk (Internal.GoListItem.ID item) (Percent item)
    (Internal.GoListItem.StmtCoveredCount item) (Internal.GoListItem.StmtCount item)
    (map (fun child => Internal.NewTemplateListItemData Percent child cutlines)
       (List.app (map Internal.GoDir.Item (Internal.GoDir.SubDirs dir))
          (map Internal.GoFile.Item (Internal.GoDir.Files dir))))
    EmptyString true.

(** The view of a file whose source text is [src]: its identifier and
    counts, and its annotated lines. *)
Definition file_view (file : Internal.GoFile.t) (src : string) : Internal.TemplateViewData.t :=
  let item := Internal.GoFile.Item file in
  Internal.TemplateViewData.mk (Internal.GoListItem.ID item) (Percent item)
    (Internal.GoListItem.StmtCoveredCount item) (Internal.GoListItem.StmtCount item)
    [] (Internal.file_lines (Internal.GoFile.Profile file) src) false.

(** The view of a node; none for a file that cannot be read. *)
Definition node_view (n : node) : option Internal.TemplateViewData.t :=
  match n with
  | NDir dir => Some (dir_view dir)
  | NFile file => option_map (file_view file) (ReadFile (Internal.GoFile.ABSPath file))
  end.

End Views.

(** The string holds no comma. *)
Definition no_comma (s : string) : bool :=
  forall_bytes (fun b => negb (Ascii.eqb b ",")) s.

(** A reader of unsigned decimal integers, standing for
    [strconv.ParseFloat] in examples: the digits' value as a [float64], or an
    error (the text itself) when the text is empty or holds another byte. *)
Fixpoint digits_value (acc : Z) (s : string) : option Z :=
  match s with
  | EmptyString => Some acc
  | String c s' =>
      let d := Z.of_N (GoStrings.byte c) - 48 in
      if (0 <=? d) && (d <=? 9) then digits_value (10 * acc + d) s' else None
  end.

Definition parse_digits (s : string) : Float64.float64 + string :=
  match s with
  | EmptyString => inr s
  | _ => match digits_value 0 s with
         | Some n => inl (Float64.of_int n)
         | None => inr s
         end
  end.

(** A byte that is safe inside an HTML text node as the report lays it
    out: neither an angle bracket nor a tab. *)
Definition plain_byte (b : ascii) : bool :=
  negb (Ascii.eqb b ">") && negb (Ascii.eqb b "<") && negb (Ascii.eqb b GoStrings.tab).

(** A byte that no escaping rewrites. *)
Definition unescaped_byte (b : ascii) : bool :=
  plain_byte b && negb (Ascii.eqb b "&").

(** The file cannot be read. *)
Definition unreadable (ReadFile : string -> option string) (file : Internal.GoFile.t) : bool :=
  match ReadFile (Internal.GoFile.ABSPath file) with
  | None => true
  | Some _ => false
  end.

(** The first file, in the order of the traversal, that cannot be read. *)
Definition first_unreadable (ReadFile : string -> option string)
  (files : list Internal.GoFile.t) : option Internal.GoFile.t :=
  find (unreadable ReadFile) files.

(** What identifies a view: its identifier and whether it is a directory. *)
Definition view_key (view : Internal.TemplateViewData.t) : string * bool :=
  (Internal.TemplateViewData.ID view, Internal.TemplateViewData.IsDir view).

Definition node_key (n : node) : string * bool :=
  match n with
  | NDir dir => (Internal.GoListItem.ID (Internal.GoDir.Item dir), true)
  | NFile file => (Internal.GoListItem.ID (Internal.GoFile.Item file), false)
  end.

Definition view_keys (td : Internal.TemplateData.t) : list (string * bool) :=
  map view_key (Internal.TemplateData.Views td).

(** The string holds no hyphen. *)
Definition no_hyphen (s : string) : bool :=
  forall_bytes (fun b => negb (Ascii.eqb b "-")) s.

(** The base names of the children of a directory of the string-building
    reporter, sub-directories first. *)
Definition child_names (subDirs : list Legacy.GoDir.t) (files : list Legacy.GoFile.t)
  : list string :=
  List.app (map (fun subDir => GoStrings.Base (Legacy.GoDir.dirname subDir)) subDirs)
    (map (fun file => GoStrings.Base (Legacy.GoFile.filename file)) files).

(** In every directory of the tree the children have distinct base names,
    none of which holds a hyphen. *)
#[warnings="-register-all"]
Inductive well_named : Legacy.GoDir.t -> Prop :=
| well_named_dir (dirname : string) (subDirs : list Legacy.GoDir.t)
    (files : list Legacy.GoFile.t) (numStmtCovered numStmt : Z) :
    NoDup (child_names subDirs files) ->
    Forall (fun name => no_hyphen name = true) (child_names subDirs files) ->
    Forall well_named subDirs ->
    well_named (Legacy.GoDir.mk dirname subDirs files numStmtCovered numStmt).

(** What [GoDir.write] appends to the identifier of a directory to name
    the nodes under it: nothing for the directory itself, a hyphen and the
    base name for a child, and so on downwards. *)
Fixpoint id_suffixes (dir : Legacy.GoDir.t) : list string :=
  match dir with
  | Legacy.GoDir.mk _ subDirs files _ _ =>
      EmptyString
      :: List.app
           (flat_map
              (fun subDir =>
                 map (fun suffix =>
                        "-" ++ GoStrings.Base (Legacy.GoDir.dirname subDir) ++ suffix)
                   (id_suffixes subDir))
              subDirs)
           (map (fun file => "-" ++ GoStrings.Base (Legacy.GoFile.filename file)) files)
  end.

End Props.

(** ** Rounding of binary64 *)

Module Rounding.

(** The integer nearest to [q + rem / 2 ^ n], for [0 <= rem < 2 ^ n], the
    even one of the two in case of a tie. *)
Definition rne (q rem n : Z) : Z :=
  if rem =? 0 then q
  else match 2 * rem ?= 2 ^ n with
       | Lt => q
       | Eq => if Z.even q then q else q + 1
       | Gt => q + 1
       end.

(** The binary64 value [M * 2 ^ E] of sign [s], for a mantissa [M] of 53
    bits, or [2 ^ 53] after a rounding that carried. *)
Definition normalize (s : bool) (M E : Z) : spec_float :=
  if M =? 2 ^ 53 then S754_finite s (2 ^ 52)%positive (E + 1)
  else match M with
       | Zpos m => S754_finite s m E
       | _ => S754_nan
       end.

(** A positive normal binary64 value: a mantissa of 53 bits and an exponent
    in the range of the format. *)
Definition normal (x : spec_float) : Prop :=
  match x with
  | S754_finite false m e => 2 ^ 52 <= Zpos m < 2 ^ 53 /\ -1074 <= e <= 971
  | _ => False
  end.

End Rounding.

(** * Properties *)

Import GoStrings Cover Props.

(** ** Lists *)

Lemma skipn_cons_inv {A : Type} (i : nat) (l : list A) (x : A) (rest : list A) :
  skipn i l = x :: rest ->
  nth_error l i = Some x /\ (i < List.length l)%nat /\ skipn (S i) l = rest.
Proof.
  revert l. induction i as [|i IH]; intros [|y l] H; simpl in *; try discriminate.
  - inversion H; subst. split; [reflexivity|]. split; [lia | reflexivity].
  - destruct (IH _ H) as (H1 & H2 & H3). repeat split; auto. lia.
Qed.

Lemma skipn_nil_inv {A : Type} (i : nat) (l : list A) :
  skipn i l = [] -> (List.length l <= i)%nat.
Proof.
  revert l. induction i as [|i IH]; intros [|y l] H; simpl in *; try discriminate; try lia.
  apply IH in H. lia.
Qed.

Lemma nth_hd_skipn {A : Type} (i : nat) (l : list A) (x d : A) (rest : list A) :
  skipn i l = x :: rest -> nth i l d = x.
Proof.
  intros H. apply skipn_cons_inv in H as (H & _ & _).
  now apply nth_error_nth.
Qed.

(** ** Blocks and cursors *)

(** The cursor step of [AddFile], read on the blocks from the cursor on. *)
Lemma select_count_skipn (Profile : list ProfileBlock) (i : nat) (lineNumber : Z) :
  Internal.select_count Profile i lineNumber =
  match skipn i Profile with
  | [] => (i, None)
  | p0 :: rest =>
      if EndLine p0 <? lineNumber then
        match rest with
        | [] => (S i, None)
        | p1 :: _ => (S i, if containsb p1 lineNumber then Some (Count p1) else None)
        end
      else (i, if containsb p0 lineNumber then Some (Count p0) else None)
  end.
Proof.
  unfold Internal.select_count.
  destruct (skipn i Profile) as [|p0 rest] eqn:Hs.
  - apply skipn_nil_inv in Hs.
    destruct (Nat.ltb_spec i (List.length Profile)); [lia | reflexivity].
  - destruct (skipn_cons_inv _ _ _ _ Hs) as (Hn & Hlt & Hrest).
    destruct (Nat.ltb_spec i (List.length Profile)); [|lia].
    rewrite Hn.
    destruct (EndLine p0 <? lineNumber) eqn:He.
    + destruct rest as [|p1 rest'].
      * apply skipn_nil_inv in Hrest.
        destruct (Nat.ltb_spec (S i) (List.length Profile)); [lia|].
        assert (Hf : (EndLine p0 >=? lineNumber) = false) by lia.
        rewrite Hf. reflexivity.
      * destruct (skipn_cons_inv _ _ _ _ Hrest) as (Hn1 & Hlt1 & _).
        destruct (Nat.ltb_spec (S i) (List.length Profile)); [|lia].
        rewrite (nth_hd_skipn _ _ _ p0 _ Hrest).
        fold (containsb p1 lineNumber).
        rewrite Hn1. now destruct (containsb p1 lineNumber).
    + fold (containsb p0 lineNumber). rewrite Hn.
      now destruct (containsb p0 lineNumber).
Qed.



Lemma containsb_true (b : ProfileBlock) (lineNumber : Z) :
  containsb b lineNumber = true <-> contains b lineNumber.
Proof.
  unfold contains, containsb. rewrite andb_true_iff, Z.geb_le, Z.leb_le. lia.
Qed.



(** ** The line annotator of [AddFile] *)



(** ** The two line annotators *)

(** The cursor step of [GoFile.write], read on the blocks from the cursor
    on. *)
Lemma legacy_select_count_skipn (profile : list ProfileBlock) (i : nat) (lineNumber : Z) :
  Legacy.select_count profile i lineNumber =
  match skipn i profile with
  | [] => (i, None)
  | p0 :: rest =>
      if EndLine p0 <? lineNumber then
        match rest with
        | [] => (S i, None)
        | p1 :: _ => (S i, Some (Count p1))
        end
      else (i, Some (Count p0))
  end.
Proof.
  unfold Legacy.select_count.
  destruct (skipn i profile) as [|p0 rest] eqn:Hs.
  - apply skipn_nil_inv in Hs.
    destruct (Nat.ltb_spec i (List.length profile)); [lia | reflexivity].
  - destruct (skipn_cons_inv _ _ _ _ Hs) as (Hn & Hlt & Hrest).
    destruct (Nat.ltb_spec i (List.length profile)); [|lia].
    rewrite Hn.
    destruct (EndLine p0 <? lineNumber).
    + destruct rest as [|p1 rest'].
      * apply skipn_nil_inv in Hrest.
        destruct (Nat.ltb_spec (S i) (List.length profile)); [lia|reflexivity].
      * destruct (skipn_cons_inv _ _ _ _ Hrest) as (Hn1 & Hlt1 & _).
        destruct (Nat.ltb_spec (S i) (List.length profile)); [|lia].
        now rewrite Hn1.
    + reflexivity.
Qed.

(** The two cursors move alike, and a count selected by [AddFile] is the
    one selected by [GoFile.write]. *)
Lemma select_count_agree (Profile : list ProfileBlock) (i : nat) (lineNumber : Z) :
  fst (Internal.select_count Profile i lineNumber)
    = fst (Legacy.select_count Profile i lineNumber) /\
  forall c, snd (Internal.select_count Profile i lineNumber) = Some c ->
            snd (Legacy.select_count Profile i lineNumber) = Some c.
Proof.
  rewrite select_count_skipn, legacy_select_count_skipn.
  destruct (skipn i Profile) as [|p0 [|p1 rest]]; simpl;
    try destruct (EndLine p0 <? lineNumber); simpl;
    try destruct (containsb p1 lineNumber); try destruct (containsb p0 lineNumber);
    split; auto; discriminate.
Qed.

(** Property X14.
    For every source text and every block list, the loop of [GoFile.write]
    and the loop of [AddFile] visit the same line numbers, and on every line
    for which [AddFile] selects a count, [GoFile.write] selects that same
    count. *)
Theorem AddFile_count_selected_by_write (Profile : list ProfileBlock) (src : string) :
  Forall2
    (fun new old : Z * option Z * string =>
       fst (fst new) = fst (fst old) /\
       forall c, snd (fst new) = Some c -> snd (fst old) = Some c)
    (Internal.file_calls Profile src) (Legacy.file_calls Profile src).
Proof.
  unfold Internal.file_calls, Legacy.file_calls.
  generalize (Split src newline) O 1.
  induction l as [|line l IH]; intros i n; simpl; [constructor|].
  destruct (select_count_agree Profile i n) as [Hi Hc].
  destruct (Internal.select_count Profile i n) as [i1 c1].
  destruct (Legacy.select_count Profile i n) as [i2 c2].
  simpl in *. subst i2. constructor; [|apply IH].
  simpl. auto.
Qed.

(** Claim C8, at a failing input.  With the single block [{2,2,1}], a
    sorted and non-overlapping block list, and a source of two lines, the loop
    of [GoFile.write] selects the count 1 for line 1, which no block contains
    (it never compares the line with [StartLine]), while the loop of [AddFile]
    selects none for line 1 and the count 1 for line 2: the two annotators do
    not select the same counts. *)
Lemma write_and_AddFile_counts_differ :
  sorted_blocks [block 2 2 1] /\
  ~ contains (block 2 2 1) 1 /\
  map (fun call : Z * option Z * string => snd (fst call))
      (Legacy.file_calls [block 2 2 1] (Join ["a"; "b"] newline))
  = [Some 1; Some 1] /\
  map (fun call : Z * option Z * string => snd (fst call))
      (Internal.file_calls [block 2 2 1] (Join ["a"; "b"] newline))
  = [None; Some 1] /\
  map (fun call : Z * option Z * string => snd (fst call))
      (Legacy.file_calls [block 2 2 1] (Join ["a"; "b"] newline))
  <> map (fun call : Z * option Z * string => snd (fst call))
       (Internal.file_calls [block 2 2 1] (Join ["a"; "b"] newline)).
Proof.
  split; [|split; [|split; [|split]]].
  - split; repeat constructor; simpl; lia.
  - unfold contains. simpl. lia.
  - reflexivity.
  - reflexivity.
  - vm_compute. discriminate.
Qed.

(** ** Escaping *)

Lemma string_app_assoc (s1 s2 s3 : string) : (s1 ++ s2) ++ s3 = s1 ++ (s2 ++ s3).
Proof.
  induction s1 as [|b s1 IH]; simpl; [reflexivity|]. now rewrite IH.
Qed.

Lemma string_app_nil_r (s : string) : s ++ EmptyString = s.
Proof.
  induction s as [|b s IH]; simpl; [reflexivity|]. now rewrite IH.
Qed.

Lemma map_bytes_app (f : ascii -> string) (s1 s2 : string) :
  map_bytes f (s1 ++ s2) = map_bytes f s1 ++ map_bytes f s2.
Proof.
  induction s1 as [|b s1 IH]; simpl; [reflexivity|].
  rewrite IH. now rewrite string_app_assoc.
Qed.

Lemma map_bytes_compose (f g : ascii -> string) (s : string) :
  map_bytes g (map_bytes f s) = map_bytes (fun b => map_bytes g (f b)) s.
Proof.
  induction s as [|b s IH]; simpl; [reflexivity|].
  now rewrite map_bytes_app, IH.
Qed.

Lemma map_bytes_ext (f g : ascii -> string) (s : string) :
  (forall b, f b = g b) -> map_bytes f s = map_bytes g s.
Proof.
  intros H. induction s as [|b s IH]; simpl; [reflexivity|].
  now rewrite H, IH.
Qed.

(** [strings.ReplaceAll] with a one-byte pattern rewrites byte by byte. *)
Lemma ReplaceAll_byte (s : string) (c : ascii) (new : string) :
  ReplaceAll s (String c EmptyString) new
  = map_bytes (fun b => if Ascii.eqb c b then new else String b EmptyString) s.
Proof.
  unfold ReplaceAll. induction s as [|b s IH]; simpl; [reflexivity|].
  destruct (Ascii.eqb c b); simpl.
  - rewrite IH. now destruct s.
  - now rewrite IH.
Qed.

(** The chained replacements of [GoFile.write], byte by byte. *)
Lemma legacy_escape_bytes (code : string) :
  Legacy.escape code = map_bytes chained_escape_byte code.
Proof.
  unfold Legacy.escape.
  rewrite !ReplaceAll_byte, !map_bytes_compose.
  apply map_bytes_ext. intros b. unfold chained_escape_byte.
  destruct (Ascii.eqb_spec b ">") as [->|H1]; [reflexivity|].
  destruct (Ascii.eqb_spec b "<") as [->|H2]; [reflexivity|].
  destruct (Ascii.eqb_spec b "&") as [->|H3]; [reflexivity|].
  destruct (Ascii.eqb_spec b tab) as [->|H4]; [reflexivity|].
  apply not_eq_sym in H1, H2, H3, H4.
  apply Ascii.eqb_neq in H1, H2, H3, H4.
  cbn [map_bytes]. rewrite H1. cbn [map_bytes append]. rewrite H2.
  cbn [map_bytes append]. rewrite H3. cbn [map_bytes append]. now rewrite H4.
Qed.

(** [WriteHTMLEscapedCode] on a line of one-byte runes, byte by byte. *)
Lemma WriteHTMLEscapedCode_bytes (line : string) :
  single_byte_runes line = true ->
  Internal.WriteHTMLEscapedCode line = map_bytes Internal.escape_byte line.
Proof.
  unfold Internal.WriteHTMLEscapedCode.
  induction line as [|b line IH]; [reflexivity|].
  intros H. change (single_byte_runes (String b line))
    with (Nat.eqb (rune_width (String b line)) 1 && single_byte_runes line) in H.
  apply andb_true_iff in H as [Hw Hrest]. apply Nat.eqb_eq in Hw.
  change (Internal.escape_from 0 (String b line))
    with (Internal.escape_byte b
          ++ Internal.escape_from (rune_width (String b line) - 1) line).
  rewrite Hw. simpl. now rewrite IH.
Qed.

(** An ASCII line is made of one-byte runes. *)
Lemma ascii_only_single_byte_runes (line : string) :
  ascii_only line = true -> single_byte_runes line = true.
Proof.
  unfold ascii_only. induction line as [|b line IH]; [reflexivity|].
  intros H. simpl in H. apply andb_true_iff in H as [Hb Hrest].
  change (single_byte_runes (String b line))
    with (Nat.eqb (rune_width (String b line)) 1 && single_byte_runes line).
  rewrite (IH Hrest), andb_true_r.
  unfold rune_width, utf8_first.
  apply N.ltb_lt in Hb.
  destruct (N.ltb_spec (byte b) 194); [reflexivity|lia].
Qed.

(** Property X15.
    For every input line that holds neither [>] nor [<] and whose runes are
    all one byte wide (every ASCII line is such a line), the chained
    [ReplaceAll] calls of [GoFile.write] produce the same string as
    [WriteHTMLEscapedCode]. *)
Theorem escape_agrees_without_angle_brackets (line : string) :
  no_angle_bracket line = true ->
  single_byte_runes line = true ->
  Legacy.escape line = Internal.WriteHTMLEscapedCode line.
Proof.
  intros Hno Hruns.
  rewrite legacy_escape_bytes, (WriteHTMLEscapedCode_bytes _ Hruns).
  clear Hruns. unfold no_angle_bracket in Hno.
  induction line as [|b line IH]; [reflexivity|].
  simpl in Hno. apply andb_true_iff in Hno as [Hb Hrest].
  apply andb_true_iff in Hb as [Hgt Hlt].
  simpl. rewrite (IH Hrest). f_equal.
  unfold chained_escape_byte, Internal.escape_byte.
  destruct (Ascii.eqb b ">"); [discriminate|].
  destruct (Ascii.eqb b "<"); [discriminate|reflexivity].
Qed.

(** Property X15 on a line with an ampersand and a tab. *)
Lemma escape_agrees_without_angle_brackets_witness :
  Legacy.escape ("if a && b {" ++ String tab "}")
  = Internal.WriteHTMLEscapedCode ("if a && b {" ++ String tab "}").
Proof.
  apply escape_agrees_without_angle_brackets; reflexivity.
Defined.

(** Claim C9, at two failing inputs.  On the line [>] the chained
    replacements of [GoFile.write] write [&amp;gt;], the third one escaping
    the [&] of the entity that the first has just written, where
    [WriteHTMLEscapedCode] writes [&gt;].  On a line made of the two-byte rune
    [C3 A9] the chained replacements keep both bytes, and the range clause of
    [WriteHTMLEscapedCode] visits the first byte of the rune only, so that the
    byte [A9] is not written.  On neither line do the two produce the same
    string. *)
Lemma escape_differs :
  Legacy.escape ">" = "&amp;gt;" /\
  Internal.WriteHTMLEscapedCode ">" = "&gt;" /\
  Legacy.escape ">" <> Internal.WriteHTMLEscapedCode ">" /\
  Legacy.escape (String (ascii_of_nat 195) (String (ascii_of_nat 169) EmptyString))
  = String (ascii_of_nat 195) (String (ascii_of_nat 169) EmptyString) /\
  Internal.WriteHTMLEscapedCode
    (String (ascii_of_nat 195) (String (ascii_of_nat 169) EmptyString))
  = String (ascii_of_nat 195) EmptyString /\
  Legacy.escape (String (ascii_of_nat 195) (String (ascii_of_nat 169) EmptyString))
  <> Internal.WriteHTMLEscapedCode
       (String (ascii_of_nat 195) (String (ascii_of_nat 169) EmptyString)).
Proof.
  repeat split; try reflexivity; vm_compute; discriminate.
Qed.

(** ** The order of float64 *)

Ltac compare_cases :=
  repeat match goal with
    | H : context [Pos.compare_cont Eq ?a ?b] |- _ =>
        change (Pos.compare_cont Eq a b) with (Pos.compare a b) in H
    | |- context [Pos.compare_cont Eq ?a ?b] =>
        change (Pos.compare_cont Eq a b) with (Pos.compare a b)
    end;
  repeat match goal with
    | H : context [Z.compare ?a ?b] |- _ => destruct (Z.compare_spec a b); simpl in H
    | |- context [Z.compare ?a ?b] => destruct (Z.compare_spec a b); simpl
    | H : context [Pos.compare ?a ?b] |- _ => destruct (Pos.compare_spec a b); simpl in H
    | |- context [Pos.compare ?a ?b] => destruct (Pos.compare_spec a b); simpl
    end;
  try congruence; try lia.

Lemma SFcompare_antisym (x y : spec_float) (c : comparison) :
  SFcompare x y = Some c -> SFcompare y x = Some (CompOpp c).
Proof.
  destruct x as [sx|sx| |sx mx ex], y as [sy|sy| |sy my ey];
    try destruct sx; try destruct sy; simpl; intros H;
    try discriminate; try (inversion H; subst; reflexivity);
    inversion H; subst; clear H; f_equal; compare_cases.
Qed.

Lemma SFleb_SFltb_trans (x y z : spec_float) :
  SFleb x y = true -> SFltb y z = true -> SFltb x z = true.
Proof.
  unfold SFleb, SFltb.
  destruct x as [sx|sx| |sx mx ex], y as [sy|sy| |sy my ey], z as [sz|sz| |sz mz ez];
    try destruct sx; try destruct sy; try destruct sz; simpl;
    intros H1 H2; try discriminate; try reflexivity; compare_cases.
Qed.



(** ** The classifier *)

Section Classifier.

Variable Percent : Internal.GoListItem.t -> Float64.float64.


(** Claim C6.  For every pair of thresholds, in whatever order, and all
    items with [StmtCount > 0] whose percentages satisfy [p1 <= p2], the rank
    of the class of the second item is at least the rank of the class of the
    first, with danger below warning below safe. *)
Theorem NewTemplateListItemData_monotone
  (item1 item2 : Internal.GoListItem.t) (cutlines : Config.Cutlines.t) :
  Internal.GoListItem.StmtCount item1 > 0 ->
  Internal.GoListItem.StmtCount item2 > 0 ->
  Float64.leb (Percent item1) (Percent item2) = true ->
  exists rank1 rank2 : nat,
    class_rank (item_class Percent item1 cutlines) = Some rank1 /\
    class_rank (item_class Percent item2 cutlines) = Some rank2 /\
    (rank1 <= rank2)%nat.
Proof.
  intros H1 H2 Hle.
  unfold item_class, Internal.NewTemplateListItemData. simpl.
  destruct (Z.gtb_spec (Internal.GoListItem.StmtCount item1) 0) as [_|]; [|lia].
  destruct (Z.gtb_spec (Internal.GoListItem.StmtCount item2) 0) as [_|]; [|lia].
  unfold Float64.ltb, Float64.leb in *.
  destruct (SFltb (Percent item2) (Config.Cutlines.Warning cutlines)) eqn:Hw2.
  - rewrite (SFleb_SFltb_trans _ _ _ Hle Hw2). exists 0%nat, 0%nat. auto.
  - destruct (SFltb (Percent item2) (Config.Cutlines.Safe cutlines)) eqn:Hs2.
    + rewrite (SFleb_SFltb_trans _ _ _ Hle Hs2).
      destruct (SFltb (Percent item1) (Config.Cutlines.Warning cutlines)).
      * exists 0%nat, 1%nat. auto.
      * exists 1%nat, 1%nat. auto.
    + destruct (SFltb (Percent item1) (Config.Cutlines.Warning cutlines));
        [|destruct (SFltb (Percent item1) (Config.Cutlines.Safe cutlines))].
      * exists 0%nat, 2%nat. auto.
      * exists 1%nat, 2%nat. auto.
      * exists 2%nat, 2%nat. auto.
Qed.

End Classifier.



Lemma NewTemplateListItemData_monotone_witness :
  exists rank1 rank2 : nat,
    class_rank
      (item_class
         (fun item => Float64.of_int (Internal.GoListItem.StmtCoveredCount item))
         (Internal.GoListItem.mk "a" "a" 30 100)
         (Config.Cutlines.mk (Float64.of_int 40) (Float64.of_int 70))) = Some rank1 /\
    class_rank
      (item_class
         (fun item => Float64.of_int (Internal.GoListItem.StmtCoveredCount item))
         (Internal.GoListItem.mk "b" "b" 80 100)
         (Config.Cutlines.mk (Float64.of_int 40) (Float64.of_int 70))) = Some rank2 /\
    (rank1 <= rank2)%nat.
Proof.
  apply (NewTemplateListItemData_monotone
           (fun item => Float64.of_int (Internal.GoListItem.StmtCoveredCount item))
           (Internal.GoListItem.mk "a" "a" 30 100)
           (Internal.GoListItem.mk "b" "b" 80 100)
           (Config.Cutlines.mk (Float64.of_int 40) (Float64.of_int 70))).
  - simpl. lia.
  - simpl. lia.
  - reflexivity.
Defined.

(** ** The display root *)

(** Claim C4, as amended.  When the root path of the project is ["."], the
    directory that [Report] displays first is reached from the root by
    descending, as long as the current directory has exactly one
    sub-directory and no file of its own, into that sub-directory: it is the
    first directory on that chain that has a file or does not have exactly one
    sub-directory.  When the root path is not ["."], it is the root itself.
    In particular, with the root path ["."], a root whose only child is the
    directory [pkg], itself holding two files, is displayed as [pkg]. *)
Theorem initialDir_display_root :
  (forall gp : Internal.GoProject.t,
      Internal.GoProject.RootPath gp = "." ->
      display_root (Internal.GoProject.Root gp) (Internal.initialDir gp)) /\
  (forall gp : Internal.GoProject.t,
      Internal.GoProject.RootPath gp <> "." ->
      Internal.initialDir gp = Internal.GoProject.Root gp) /\
  (forall d r r' : Internal.GoDir.t, display_root d r -> display_root d r' -> r = r') /\
  (forall (cutlines : Config.Cutlines.t) (rootItem pkgItem : Internal.GoListItem.t)
          (pkgPath : string) (file1 file2 : Internal.GoFile.t),
      let pkg := Internal.GoDir.mk pkgItem pkgPath [] [file1; file2] in
      let root := Internal.GoDir.mk rootItem "." [pkg] [] in
      Internal.initialDir (Internal.GoProject.mk "." cutlines root) = pkg).
Proof.
  assert (Hloop : forall d, display_root d (Internal.initialDir_loop d)).
  { fix IH 1. intros [item rel subDirs files].
    destruct subDirs as [|subDir [|subDir' subDirs]].
    - apply display_stop. simpl. left. discriminate.
    - destruct files as [|file files].
      + simpl. apply display_descend with (subDir := subDir); [reflexivity|reflexivity|].
        apply IH.
      + apply display_stop. simpl. right. discriminate.
    - apply display_stop. simpl. left. discriminate. }
  split; [|split; [|split]].
  - intros gp Hroot. unfold Internal.initialDir. rewrite Hroot. simpl. apply Hloop.
  - intros gp Hroot. unfold Internal.initialDir.
    apply String.eqb_neq in Hroot. now rewrite Hroot.
  - intros d r r' H. revert r'. induction H as [d Hstop|d subDir r Hs Hf _ IH]; intros r' H'.
    + inversion H' as [|? ? ? Hs' Hf']; subst; [reflexivity|].
      rewrite Hs', Hf' in Hstop. simpl in Hstop. destruct Hstop; congruence.
    + inversion H' as [? Hstop|? ? ? Hs' Hf' Hr']; subst.
      * rewrite Hs, Hf in Hstop. simpl in Hstop. destruct Hstop; congruence.
      * rewrite Hs in Hs'. inversion Hs'; subst. now apply IH.
  - reflexivity.
Qed.

(** Claim C4 as stated fails when the root path is not ["."]: the root is
    then displayed, although its only child is a directory with two files. *)
Lemma initialDir_not_collapsed :
  let file1 := Internal.GoFile.mk (Internal.GoListItem.mk "m-pkg-a.go" "a.go" 1 1)
                 "/src/m/pkg/a.go" "m/pkg/a.go" [] in
  let file2 := Internal.GoFile.mk (Internal.GoListItem.mk "m-pkg-b.go" "b.go" 0 1)
                 "/src/m/pkg/b.go" "m/pkg/b.go" [] in
  let pkg := Internal.GoDir.mk (Internal.GoListItem.mk "m-pkg" "pkg" 1 2) "m/pkg"
               [] [file1; file2] in
  let root := Internal.GoDir.mk (Internal.GoListItem.mk "m" "m" 1 2) "m" [pkg] [] in
  let gp := Internal.GoProject.mk "m"
              (Config.Cutlines.mk (Float64.of_int 70) (Float64.of_int 40)) root in
  Internal.initialDir gp = root /\ Internal.initialDir gp <> pkg /\ display_root root pkg.
Proof.
  simpl. split; [reflexivity|]. split; [discriminate|].
  eapply display_descend; [reflexivity|reflexivity|].
  apply display_stop. right. discriminate.
Qed.

(** ** The projector *)

Lemma update_nth_app {A : Type} (f : A -> A) (l1 : list A) (v : A) (l2 : list A) :
  Internal.update_nth (List.length l1) f (l1 ++ v :: l2) = (l1 ++ f v :: l2)%list.
Proof.
  induction l1 as [|x l1 IH]; simpl; [reflexivity|]. now rewrite IH.
Qed.

(** Induction on a tree of directories: the property holds for a
    directory as soon as it holds for its sub-directories. *)
Lemma GoDir_tree_ind (P : Internal.GoDir.t -> Prop) :
  (forall item rel subDirs files,
      Forall P subDirs -> P (Internal.GoDir.mk item rel subDirs files)) ->
  forall dir, P dir.
Proof.
  intros H. fix IH 1. intros [item rel subDirs files].
  apply H. induction subDirs as [|subDir subDirs IHl]; constructor.
  - apply IH.
  - exact IHl.
Qed.

Section Projector.

Variable Percent : Internal.GoListItem.t -> Float64.float64.
Variable ReadFile : string -> option string.

Abbreviation AddFile := (Internal.AddFile Percent ReadFile).
Abbreviation AddDir := (Internal.AddDir Percent ReadFile).
Abbreviation item_data := (Internal.NewTemplateListItemData Percent).

(** [views] are the views of [nodes], in the same order, one for each. *)
Abbreviation views_of cutlines nodes views :=
  (map Some views = map (node_view Percent ReadFile cutlines) nodes).

(** The state of the projector while the children of a directory are
    processed: the views before the directory's, the directory's view with the
    items [items], and the views [later] appended since. *)
Abbreviation state before view items later id cutlines :=
  (Internal.TemplateData.mk
     (before ++ Internal.TemplateViewData.with_Items items view :: later)%list id cutlines).

Lemma AddFile_readable (file : Internal.GoFile.t) (td : Internal.TemplateData.t) (src : string) :
  ReadFile (Internal.GoFile.ABSPath file) = Some src ->
  AddFile file td
  = Internal.Ok
      (Internal.TemplateData.mk
         (Internal.TemplateData.Views td ++ [file_view Percent file src])%list
         (Internal.TemplateData.InitialID td) (Internal.TemplateData.Cutlines td)).
Proof.
  intros H. unfold Internal.AddFile. rewrite H.
  unfold Internal.update_view, Internal.append_view. simpl.
  now rewrite update_nth_app.
Qed.

Lemma AddFile_unreadable (file : Internal.GoFile.t) (td : Internal.TemplateData.t) :
  ReadFile (Internal.GoFile.ABSPath file) = None ->
  AddFile file td = Internal.Err (Internal.CantRead (Internal.GoFile.RelPkgPath file)).
Proof.
  intros H. unfold Internal.AddFile. now rewrite H.
Qed.

Lemma append_item_state (before : list Internal.TemplateViewData.t)
  (view : Internal.TemplateViewData.t) (items : list Internal.TemplateListItemData.t)
  (later more : list Internal.TemplateViewData.t) (id : string) (cutlines : Config.Cutlines.t)
  (item : Internal.TemplateListItemData.t) :
  Internal.update_view (List.length before) (Internal.append_item item)
    (Internal.TemplateData.mk
       ((before ++ Internal.TemplateViewData.with_Items items view :: later) ++ more)%list
       id cutlines)
  = state before view (items ++ [item])%list (later ++ more)%list id cutlines.
Proof.
  unfold Internal.update_view. simpl.
  rewrite <- app_assoc. simpl. now rewrite update_nth_app.
Qed.

Lemma AddDir_files_readable (files : list Internal.GoFile.t) :
  forall (before : list Internal.TemplateViewData.t) (view : Internal.TemplateViewData.t)
         (items : list Internal.TemplateListItemData.t)
         (later : list Internal.TemplateViewData.t) (id : string)
         (cutlines : Config.Cutlines.t),
    (forall file, In file files -> ReadFile (Internal.GoFile.ABSPath file) <> None) ->
    exists views,
      Internal.AddDir_files Percent ReadFile (List.length before) files
        (state before view items later id cutlines)
      = Internal.Ok
          (state before view
             (items ++ map (fun file => item_data (Internal.GoFile.Item file) cutlines) files)%list
             (later ++ views)%list id cutlines)
      /\ views_of cutlines (map NFile files) views.
Proof.
  induction files as [|file files IH]; intros before view items later id cutlines Hread.
  - exists []. simpl. now rewrite !app_nil_r.
  - destruct (ReadFile (Internal.GoFile.ABSPath file)) as [src|] eqn:Hsrc;
      [|exfalso; apply (Hread file); [now left|assumption]].
    simpl. rewrite (AddFile_readable _ _ _ Hsrc). simpl.
    rewrite append_item_state.
    destruct (IH before view (items ++ [item_data (Internal.GoFile.Item file) cutlines])%list
                (later ++ [file_view Percent file src])%list id cutlines) as (views & Hrun & Hviews).
    { intros f Hf. apply Hread. now right. }
    exists (file_view Percent file src :: views).
    rewrite Hrun. rewrite <- !app_assoc. simpl. split; [reflexivity|].
    rewrite Hsrc. simpl. now rewrite Hviews.
Qed.

Lemma AddDir_subDirs_readable
  (rec : Internal.GoDir.t -> Internal.TemplateData.t -> Internal.result Internal.TemplateData.t)
  (subDirs : list Internal.GoDir.t) :
  forall (before : list Internal.TemplateViewData.t) (view : Internal.TemplateViewData.t)
         (items : list Internal.TemplateListItemData.t)
         (later : list Internal.TemplateViewData.t) (id : string)
         (cutlines : Config.Cutlines.t),
    (forall subDir, In subDir subDirs ->
       forall td, exists views,
         rec subDir td
         = Internal.Ok
             (Internal.TemplateData.mk (Internal.TemplateData.Views td ++ views)%list
                (Internal.TemplateData.InitialID td) (Internal.TemplateData.Cutlines td))
         /\ views_of (Internal.TemplateData.Cutlines td) (preorder subDir) views) ->
    exists views,
      Internal.AddDir_subDirs Percent rec (List.length before) subDirs
        (state before view items later id cutlines)
      = Internal.Ok
          (state before view
             (items ++ map (fun subDir => item_data (Internal.GoDir.Item subDir) cutlines)
                        subDirs)%list
             (later ++ views)%list id cutlines)
      /\ views_of cutlines (flat_map preorder subDirs) views.
Proof.
  induction subDirs as [|subDir subDirs IH]; intros before view items later id cutlines Hrec.
  - exists []. simpl. now rewrite !app_nil_r.
  - destruct (Hrec subDir (or_introl eq_refl) (state before view items later id cutlines))
      as (views1 & Hrun1 & Hviews1).
    simpl in Hrun1, Hviews1.
    simpl. rewrite Hrun1. simpl. rewrite append_item_state.
    destruct (IH before view (items ++ [item_data (Internal.GoDir.Item subDir) cutlines])%list
                (later ++ views1)%list id cutlines) as (views & Hrun & Hviews).
    { intros d Hd. apply Hrec. now right. }
    exists (views1 ++ views)%list.
    rewrite Hrun. rewrite <- !app_assoc. simpl. split; [reflexivity|].
    now rewrite !map_app, Hviews1, Hviews.
Qed.

Lemma in_files_under_file (dir : Internal.GoDir.t) (file : Internal.GoFile.t) :
  In file (Internal.GoDir.Files dir) -> In file (files_under dir).
Proof.
  destruct dir as [item rel subDirs files]. simpl. intros H. apply in_or_app. now right.
Qed.

Lemma in_files_under_subDir (dir subDir : Internal.GoDir.t) (file : Internal.GoFile.t) :
  In subDir (Internal.GoDir.SubDirs dir) -> In file (files_under subDir) ->
  In file (files_under dir).
Proof.
  destruct dir as [item rel subDirs files]. simpl. intros Hd Hf. apply in_or_app. left.
  apply in_flat_map. now exists subDir.
Qed.

(** Claim C5.  For every tree and every directory [dir] chosen as display
    root, when the files under [dir] can be read, [AddDir] appends to the views
    exactly one view per node reachable from [dir], in pre-order: the view of a
    directory comes first, then the views of each of its sub-directories'
    nodes in turn, then the views of its files.  No node is left out and none
    is given two views. *)
Theorem AddDir_views_in_preorder (dir : Internal.GoDir.t) :
  forall td : Internal.TemplateData.t,
    (forall file, In file (files_under dir) ->
                  ReadFile (Internal.GoFile.ABSPath file) <> None) ->
    exists views,
      AddDir dir td
      = Internal.Ok
          (Internal.TemplateData.mk (Internal.TemplateData.Views td ++ views)%list
             (Internal.TemplateData.InitialID td) (Internal.TemplateData.Cutlines td))
      /\ views_of (Internal.TemplateData.Cutlines td) (preorder dir) views
      /\ List.length views = List.length (preorder dir).
Proof.
  induction dir as [item rel subDirs files IH] using GoDir_tree_ind.
  intros td Hread.
  set (dir := Internal.GoDir.mk item rel subDirs files) in *.
  assert (Hlen : forall views,
             views_of (Internal.TemplateData.Cutlines td) (preorder dir) views ->
             List.length views = List.length (preorder dir)).
  { intros views H. apply (f_equal (@List.length _)) in H. now rewrite !length_map in H. }
  enough (exists views,
             AddDir dir td
             = Internal.Ok
                 (Internal.TemplateData.mk (Internal.TemplateData.Views td ++ views)%list
                    (Internal.TemplateData.InitialID td) (Internal.TemplateData.Cutlines td))
             /\ views_of (Internal.TemplateData.Cutlines td) (preorder dir) views)
    as (views & H1 & H2) by (exists views; auto).
  clear Hlen.
  destruct td as [views0 id cutlines].
  subst dir.
  set (view := Internal.TemplateViewData.mk (Internal.GoListItem.ID item) (Percent item)
                 (Internal.GoListItem.StmtCoveredCount item)
                 (Internal.GoListItem.StmtCount item) [] EmptyString true).
  assert (Hsub : forall subDir, In subDir subDirs ->
             forall td, exists views,
               AddDir subDir td
               = Internal.Ok
                   (Internal.TemplateData.mk (Internal.TemplateData.Views td ++ views)%list
                      (Internal.TemplateData.InitialID td) (Internal.TemplateData.Cutlines td))
               /\ views_of (Internal.TemplateData.Cutlines td) (preorder subDir) views).
  { intros subDir Hin td.
    rewrite Forall_forall in IH.
    destruct (IH subDir Hin td) as (views & H1 & H2 & _).
    - intros file Hf. apply Hread.
      apply (in_files_under_subDir (Internal.GoDir.mk item rel subDirs files) subDir);
        assumption.
    - exists views. auto. }
  clear IH.
  destruct (AddDir_subDirs_readable AddDir subDirs views0 view [] [] id cutlines Hsub)
    as (views1 & Hrun1 & Hviews1).
  destruct (AddDir_files_readable files views0 view
              (map (fun subDir => item_data (Internal.GoDir.Item subDir) cutlines) subDirs)
              views1 id cutlines) as (views2 & Hrun2 & Hviews2).
  { intros file Hf. apply Hread.
    apply (in_files_under_file (Internal.GoDir.mk item rel subDirs files)). assumption. }
  exists (dir_view Percent cutlines (Internal.GoDir.mk item rel subDirs files)
            :: views1 ++ views2)%list.
  split.
  - simpl. unfold Internal.append_view. simpl.
    change (Internal.TemplateViewData.mk (Internal.GoListItem.ID item) (Percent item)
              (Internal.GoListItem.StmtCoveredCount item)
              (Internal.GoListItem.StmtCount item) [] EmptyString true)
      with (Internal.TemplateViewData.with_Items [] view).
    simpl in Hrun1. rewrite Hrun1. simpl. simpl in Hrun2. rewrite Hrun2.
    unfold dir_view. simpl. now rewrite !map_app, !map_map.
  - simpl. rewrite !map_app. now rewrite Hviews1, Hviews2.
Qed.

End Projector.

(** Claim C5 on a root with one sub-directory holding one file, and one
    file of its own: four views. *)
Lemma AddDir_views_in_preorder_witness :
  let cutlines := Config.Cutlines.mk (Float64.of_int 70) (Float64.of_int 40) in
  let Percent := fun item : Internal.GoListItem.t =>
                   Float64.of_int (Internal.GoListItem.StmtCoveredCount item) in
  let ReadFile := fun _ : string => Some "package p" in
  let a := Internal.GoFile.mk (Internal.GoListItem.mk "pkg-a.go" "a.go" 1 1)
             "/src/pkg/a.go" "pkg/a.go" [block 1 1 1] in
  let main := Internal.GoFile.mk (Internal.GoListItem.mk "main.go" "main.go" 0 1)
                "/src/main.go" "main.go" [block 1 1 0] in
  let pkg := Internal.GoDir.mk (Internal.GoListItem.mk "pkg" "pkg" 1 1) "pkg" [] [a] in
  let root := Internal.GoDir.mk (Internal.GoListItem.mk "root" "root" 1 2) "." [pkg] [main] in
  let td := Internal.TemplateData.mk [] "root" cutlines in
  exists views,
    Internal.AddDir Percent ReadFile root td
    = Internal.Ok
        (Internal.TemplateData.mk (Internal.TemplateData.Views td ++ views)%list
           (Internal.TemplateData.InitialID td) (Internal.TemplateData.Cutlines td))
    /\ map Some views
       = map (node_view Percent ReadFile (Internal.TemplateData.Cutlines td)) (preorder root)
    /\ List.length views = List.length (preorder root).
Proof.
  intros cutlines Percent ReadFile a main pkg root td.
  apply (AddDir_views_in_preorder Percent ReadFile root td).
  intros file _. discriminate.
Defined.

(** ** Node identifiers *)

(** Claim C7 at a tree the code can be given: the root holds the directory
    [a], with the file [a/b.go], and the file [a-b.go].  [GoDir.write] gives
    the two files, which are distinct nodes, the same identifier
    [root-a-b.go]: the hyphen that joins a parent's identifier to a base name
    is also a character of base names. *)
Theorem write_identifiers_collide :
  let a := Legacy.GoDir.mk "a" [] [Legacy.GoFile.mk "a/b.go" [] 1 1] 1 1 in
  let root := Legacy.GoDir.mk "." [a] [Legacy.GoFile.mk "a-b.go" [] 0 1] 1 2 in
  Legacy.report_ids root
  = [(".", "root"); ("a", "root-a"); ("a/b.go", "root-a-b.go"); ("a-b.go", "root-a-b.go")]
  /\ NoDup (map fst (Legacy.report_ids root))
  /\ ~ NoDup (map snd (Legacy.report_ids root)).
Proof.
  simpl. split; [reflexivity|]. split.
  - repeat constructor; simpl; intuition discriminate.
  - intros H. inversion H as [|? ? _ H1]; subst. inversion H1 as [|? ? _ H2]; subst.
    inversion H2 as [|? ? Hin _]; subst. apply Hin. now left.
Qed.

(** ** The command line *)

Lemma Split_nonempty (s : string) (sep : ascii) : Split s sep <> [].
Proof.
  destruct s as [|c s]; simpl; [discriminate|].
  destruct (Ascii.eqb c sep); [discriminate|].
  destruct (Split s sep); discriminate.
Qed.

Lemma Split_no_sep (s : string) (sep : ascii) :
  forall_bytes (fun b => negb (Ascii.eqb b sep)) s = true -> Split s sep = [s].
Proof.
  induction s as [|c s IH]; simpl; [reflexivity|].
  intros H. apply andb_true_iff in H as [Hc Hs].
  apply negb_true_iff in Hc. rewrite Hc, (IH Hs). reflexivity.
Qed.

Lemma Split_app_sep (frag rest : string) (sep : ascii) :
  forall_bytes (fun b => negb (Ascii.eqb b sep)) frag = true ->
  Split (frag ++ String sep rest) sep = frag :: Split rest sep.
Proof.
  induction frag as [|c frag IH]; simpl.
  - intros _. now rewrite Ascii.eqb_refl.
  - intros H. apply andb_true_iff in H as [Hc Hs].
    apply negb_true_iff in Hc. rewrite Hc, (IH Hs). reflexivity.
Qed.

(** Splitting what was joined gives the fragments back. *)
Lemma Split_Join (frags : list string) (sep : ascii) :
  frags <> [] ->
  Forall (fun frag => forall_bytes (fun b => negb (Ascii.eqb b sep)) frag = true) frags ->
  Split (Join frags sep) sep = frags.
Proof.
  induction frags as [|frag frags IH]; [congruence|].
  intros _ Hall. inversion Hall as [|? ? Hfrag Hrest]; subst.
  destruct frags as [|frag' frags].
  - simpl. now apply Split_no_sep.
  - change (Join (frag :: frag' :: frags) sep)
      with (frag ++ String sep (Join (frag' :: frags) sep)).
    rewrite (Split_app_sep _ _ _ Hfrag). f_equal. apply IH; [discriminate|assumption].
Qed.

Lemma nth_error_last {A : Type} (l : list A) (d : A) :
  l <> [] -> nth_error l (List.length l - 1) = Some (last l d).
Proof.
  induction l as [|x l IH]; [congruence|]. intros _.
  destruct l as [|y l]; [reflexivity|].
  specialize (IH ltac:(discriminate)).
  simpl in IH |- *. rewrite Nat.sub_0_r in *. exact IH.
Qed.

Section ParseCutlines.

Variable NumError : Type.
Variable ParseFloat : string -> Float64.float64 + NumError.

Abbreviation ParseCutlines := (CLI.ParseCutlines NumError ParseFloat).

(** [ParseCutlines] in terms of the first and the last fragment. *)
Lemma ParseCutlines_first_last (cutlines : string) :
  let frags := Split cutlines "," in
  ParseCutlines cutlines =
  match ParseFloat (hd EmptyString frags) with
  | inr err => CLI.Fail err
  | inl safe =>
      match ParseFloat (last frags EmptyString) with
      | inr err => CLI.Fail err
      | inl warning => CLI.Return (Config.Cutlines.mk safe warning)
      end
  end.
Proof.
  intros frags. unfold CLI.ParseCutlines. fold frags.
  assert (Hne : frags <> []) by apply Split_nonempty.
  rewrite (nth_error_last frags EmptyString Hne).
  destruct frags as [|frag0 frags']; [congruence|]. reflexivity.
Qed.

(** Claim C10.  [ParseCutlines] splits its input on commas; it never
    panics; it returns an error exactly when the first or the last fragment
    fails to parse as a float; otherwise it returns the value of the first
    fragment as [Safe] and the value of the last fragment as [Warning].  An
    input without a comma is its own first and last fragment, so that [Safe]
    and [Warning] are both its value; the fragments between the first and the
    last one are never parsed and change nothing. *)
Theorem ParseCutlines_first_and_last_fragment :
  (forall cutlines : string,
      let frags := Split cutlines "," in
      let first := hd EmptyString frags in
      let final := last frags EmptyString in
      ParseCutlines cutlines <> CLI.Panic /\
      ((exists err, ParseCutlines cutlines = CLI.Fail err) <->
       (exists err, ParseFloat first = inr err) \/ (exists err, ParseFloat final = inr err)) /\
      (forall safe warning,
          ParseFloat first = inl safe -> ParseFloat final = inl warning ->
          ParseCutlines cutlines = CLI.Return (Config.Cutlines.mk safe warning)) /\
      (forall c, ParseCutlines cutlines = CLI.Return c ->
                 ParseFloat first = inl (Config.Cutlines.Safe c) /\
                 ParseFloat final = inl (Config.Cutlines.Warning c))) /\
  (forall (cutlines : string) (value : Float64.float64),
      no_comma cutlines = true ->
      ParseFloat cutlines = inl value ->
      ParseCutlines cutlines = CLI.Return (Config.Cutlines.mk value value)) /\
  (forall (first final : string) (middle : list string),
      Forall (fun frag => no_comma frag = true) (first :: middle ++ [final]) ->
      ParseCutlines (Join (first :: middle ++ [final]) ",")
      = ParseCutlines (Join [first; final] ",")).
Proof.
  split; [|split].
  - intros cutlines frags first final.
    rewrite (ParseCutlines_first_last cutlines). fold frags first final.
    destruct (ParseFloat first) as [safe|err1] eqn:H1;
      destruct (ParseFloat final) as [warning|err2] eqn:H2.
    + split; [discriminate|]. split; [|split].
      * split; [intros [err H]; discriminate|].
        intros [[err H]|[err H]]; discriminate.
      * intros s w Hs Hw. inversion Hs; inversion Hw; subst. reflexivity.
      * intros c H. inversion H; subst. simpl. auto.
    + split; [discriminate|]. split; [|split].
      * split; [intros _; right; now exists err2|]. intros _. now exists err2.
      * intros s w _ Hw. discriminate.
      * intros c H. discriminate.
    + split; [discriminate|]. split; [|split].
      * split; [intros _; left; now exists err1|]. intros _. now exists err1.
      * intros s w Hs _. discriminate.
      * intros c H. discriminate.
    + split; [discriminate|]. split; [|split].
      * split; [intros _; left; now exists err1|]. intros _. now exists err1.
      * intros s w Hs _. discriminate.
      * intros c H. discriminate.
  - intros cutlines value Hno Hval.
    rewrite ParseCutlines_first_last. unfold no_comma in Hno.
    rewrite (Split_no_sep _ _ Hno). simpl. now rewrite Hval.
  - intros first final middle Hall.
    rewrite !ParseCutlines_first_last.
    assert (Hall2 : Forall (fun frag => no_comma frag = true) [first; final]).
    { inversion Hall as [|? ? Hf Hrest]; subst. constructor; [assumption|].
      apply Forall_app in Hrest as [_ Hfin]. assumption. }
    rewrite (Split_Join (first :: middle ++ [final]) "," ltac:(discriminate) Hall).
    rewrite (Split_Join [first; final] "," ltac:(discriminate) Hall2).
    cbv zeta. change (hd EmptyString (first :: middle ++ [final])) with first.
    change (hd EmptyString [first; final]) with first.
    replace (last (first :: middle ++ [final]) EmptyString) with final.
    + reflexivity.
    + change (first :: middle ++ [final])%list with ((first :: middle) ++ [final])%list.
      now rewrite last_last.
Qed.

End ParseCutlines.

(** Claim C10 on the inputs ["3"] and ["3,x,7"], with the reader of
    decimal integers as the float parser: the middle fragment [x] is not a
    number and does no harm. *)
Lemma ParseCutlines_first_and_last_fragment_witness :
  CLI.ParseCutlines string parse_digits "3"
  = CLI.Return (Config.Cutlines.mk (Float64.of_int 3) (Float64.of_int 3)) /\
  CLI.ParseCutlines string parse_digits (Join ("3" :: ["x"] ++ ["7"]) ",")
  = CLI.ParseCutlines string parse_digits (Join ["3"; "7"] ",").
Proof.
  split.
  - apply (proj1 (proj2 (ParseCutlines_first_and_last_fragment string parse_digits)));
      reflexivity.
  - apply (proj2 (proj2 (ParseCutlines_first_and_last_fragment string parse_digits))).
    repeat constructor.
Defined.

(** Claim C4 with the root path ["."]: the root, whose only child is the
    directory [pkg], is displayed as [pkg]. *)
Lemma initialDir_display_root_witness :
  display_root
    (Internal.GoDir.mk (Internal.GoListItem.mk "root" "root" 1 2) "." 
       [Internal.GoDir.mk (Internal.GoListItem.mk "pkg" "pkg" 1 2) "pkg" []
          [Internal.GoFile.mk (Internal.GoListItem.mk "pkg-a.go" "a.go" 1 1)
             "/src/pkg/a.go" "pkg/a.go" [];
           Internal.GoFile.mk (Internal.GoListItem.mk "pkg-b.go" "b.go" 0 1)
             "/src/pkg/b.go" "pkg/b.go" []]] [])
    (Internal.GoDir.mk (Internal.GoListItem.mk "pkg" "pkg" 1 2) "pkg" []
       [Internal.GoFile.mk (Internal.GoListItem.mk "pkg-a.go" "a.go" 1 1)
          "/src/pkg/a.go" "pkg/a.go" [];
        Internal.GoFile.mk (Internal.GoListItem.mk "pkg-b.go" "b.go" 0 1)
          "/src/pkg/b.go" "pkg/b.go" []]).
Proof.
  apply (proj1 initialDir_display_root
           (Internal.GoProject.mk "."
              (Config.Cutlines.mk (Float64.of_int 70) (Float64.of_int 40))
              (Internal.GoDir.mk (Internal.GoListItem.mk "root" "root" 1 2) "." 
                 [Internal.GoDir.mk (Internal.GoListItem.mk "pkg" "pkg" 1 2) "pkg" []
                    [Internal.GoFile.mk (Internal.GoListItem.mk "pkg-a.go" "a.go" 1 1)
                       "/src/pkg/a.go" "pkg/a.go" [];
                     Internal.GoFile.mk (Internal.GoListItem.mk "pkg-b.go" "b.go" 0 1)
                       "/src/pkg/b.go" "pkg/b.go" []]] []))).
  reflexivity.
Defined.

(** ** Rounding of binary64 *)

Import Rounding.

Lemma digits2_pos_spec (p : positive) :
  2 ^ (Zpos (digits2_pos p) - 1) <= Zpos p < 2 ^ Zpos (digits2_pos p).
Proof.
  induction p as [p IH|p IH|]; simpl digits2_pos.
  - rewrite Pos2Z.inj_succ. replace (Z.succ (Zpos (digits2_pos p)) - 1)
      with (Z.succ (Zpos (digits2_pos p) - 1)) by lia.
    rewrite !Z.pow_succ_r by lia. lia.
  - rewrite Pos2Z.inj_succ. replace (Z.succ (Zpos (digits2_pos p)) - 1)
      with (Z.succ (Zpos (digits2_pos p) - 1)) by lia.
    rewrite !Z.pow_succ_r by lia. lia.
  - simpl. lia.
Qed.

(** The number of digits of a positive integer is fixed by the powers of
    two around it. *)
Lemma Zdigits2_unique (m d : Z) :
  0 < m -> 2 ^ (d - 1) <= m < 2 ^ d -> 0 < d -> Zdigits2 m = d.
Proof.
  intros Hm [Hlo Hhi] Hd. destruct m as [|p|p]; try lia. simpl.
  pose proof (digits2_pos_spec p) as [Hlo' Hhi'].
  set (d' := Zpos (digits2_pos p)) in *.
  assert (d' <= d).
  { apply Z.nlt_ge. intros Hlt.
    assert (2 ^ d <= 2 ^ (d' - 1)) by (apply Z.pow_le_mono_r; lia). lia. }
  assert (d <= d').
  { apply Z.nlt_ge. intros Hlt.
    assert (2 ^ d' <= 2 ^ (d - 1)) by (apply Z.pow_le_mono_r; lia). lia. }
  lia.
Qed.

Lemma Zdigits2_bounds (m : Z) :
  0 < m -> 0 < Zdigits2 m /\ 2 ^ (Zdigits2 m - 1) <= m < 2 ^ Zdigits2 m.
Proof.
  intros Hm. destruct m as [|p|p]; try lia. simpl. split; [lia|].
  apply digits2_pos_spec.
Qed.

Lemma iter_pos_nat {A : Type} (f : A -> A) (p : positive) (x : A) :
  iter_pos f p x = Nat.iter (Pos.to_nat p) f x.
Proof.
  revert x. induction p as [p IH|p IH|]; intros x; cbn [iter_pos].
  - rewrite !IH, Pos2Nat.inj_xI, Nat.iter_succ_r.
    replace (2 * Pos.to_nat p)%nat with (Pos.to_nat p + Pos.to_nat p)%nat by lia.
    now rewrite Nat.iter_add.
  - rewrite !IH, Pos2Nat.inj_xO.
    replace (2 * Pos.to_nat p)%nat with (Pos.to_nat p + Pos.to_nat p)%nat by lia.
    now rewrite Nat.iter_add.
  - reflexivity.
Qed.

Lemma shr_1_spec (m : Z) (r s : bool) :
  0 <= m ->
  shr_1 (Build_shr_record m r s) = Build_shr_record (m / 2) (Z.odd m) (r || s).
Proof.
  intros Hm. rewrite <- Z.div2_div.
  destruct m as [|[p|p|]|p]; try lia; reflexivity.
Qed.

(** Shifting right [k] times keeps the quotient by [2 ^ k], the last bit
    shifted out and whether a bit shifted out before was set. *)
Lemma iter_shr_1_spec (m : Z) (k : nat) :
  0 <= m ->
  Nat.iter (S k) shr_1 (Build_shr_record m false false)
  = Build_shr_record (m / 2 ^ Z.of_nat (S k)) (Z.odd (m / 2 ^ Z.of_nat k))
      (negb (m mod 2 ^ Z.of_nat k =? 0)).
Proof.
  intros Hm. induction k as [|k IH].
  - unfold Nat.iter; cbn [nat_rect]. rewrite shr_1_spec by assumption.
    change (2 ^ Z.of_nat 1) with 2. change (2 ^ Z.of_nat 0) with 1.
    now rewrite Z.div_1_r, Z.mod_1_r.
  - rewrite Nat.iter_succ, IH.
    assert (Hpos : 0 < 2 ^ Z.of_nat k) by (apply Z.pow_pos_nonneg; lia).
    assert (Hpos' : 0 < 2 ^ Z.of_nat (S k)) by (apply Z.pow_pos_nonneg; lia).
    rewrite shr_1_spec by (apply Z.div_pos; lia).
    assert (H2 : 2 ^ Z.of_nat (S k) = 2 ^ Z.of_nat k * 2).
    { rewrite Nat2Z.inj_succ, Z.pow_succ_r by lia. lia. }
    f_equal.
    + rewrite Z.div_div by lia.
      replace (Z.of_nat (S (S k))) with (Z.succ (Z.of_nat (S k))) by lia.
      rewrite Z.pow_succ_r by lia. f_equal. lia.
    + rewrite H2 at 1. rewrite Z.rem_mul_r by lia.
      pose proof (Z.mod_pos_bound m (2 ^ Z.of_nat k) Hpos) as Hb.
      pose proof (Z.mod_pos_bound (m / 2 ^ Z.of_nat k) 2 ltac:(lia)) as Hb2.
      rewrite Zodd_mod.
      destruct (Z.eqb_spec ((m / 2 ^ Z.of_nat k) mod 2) 1) as [H1|H1];
        destruct (Z.eqb_spec (m mod 2 ^ Z.of_nat k) 0) as [H0|H0]; simpl;
        symmetry; (apply negb_true_iff + apply negb_false_iff);
        (apply Z.eqb_neq + apply Z.eqb_eq); nia.
Qed.

Lemma iter_shr_1_m (k : nat) (rec : shr_record) :
  0 <= shr_m rec -> shr_m (Nat.iter k shr_1 rec) = shr_m rec / 2 ^ Z.of_nat k.
Proof.
  intros Hm. induction k as [|k IH].
  - unfold Nat.iter; cbn [nat_rect]. change (2 ^ Z.of_nat 0) with 1. now rewrite Z.div_1_r.
  - rewrite Nat.iter_succ.
    destruct (Nat.iter k shr_1 rec) as [m r s] eqn:Hrec. simpl in IH.
    assert (Hpos : 0 < 2 ^ Z.of_nat k) by (apply Z.pow_pos_nonneg; lia).
    assert (H2 : 2 ^ Z.of_nat (S k) = 2 ^ Z.of_nat k * 2).
    { rewrite Nat2Z.inj_succ, Z.pow_succ_r by lia. lia. }
    rewrite shr_1_spec by (subst m; apply Z.div_pos; lia).
    cbn [shr_m]. subst m. rewrite Z.div_div by lia. now rewrite H2.
Qed.

Lemma round_nearest_even_bounds (m : Z) (l : location) :
  m <= round_nearest_even m l <= m + 1.
Proof.
  destruct l as [|[| |]]; simpl; try lia. destruct (Z.even m); lia.
Qed.

(** Rounding after an exact shift is rounding to nearest even of the
    quotient and the remainder. *)
Lemma round_shr_exact (m : Z) (k : nat) :
  0 <= m ->
  round_nearest_even (shr_m (Nat.iter k shr_1 (Build_shr_record m false false)))
    (loc_of_shr_record (Nat.iter k shr_1 (Build_shr_record m false false)))
  = rne (m / 2 ^ Z.of_nat k) (m mod 2 ^ Z.of_nat k) (Z.of_nat k).
Proof.
  intros Hm. destruct k as [|k].
  - unfold Nat.iter; cbn [nat_rect]. change (2 ^ Z.of_nat 0) with 1.
    rewrite Z.div_1_r, Z.mod_1_r. reflexivity.
  - rewrite iter_shr_1_spec by assumption.
    assert (Hpos : 0 < 2 ^ Z.of_nat k) by (apply Z.pow_pos_nonneg; lia).
    assert (H2 : 2 ^ Z.of_nat (S k) = 2 ^ Z.of_nat k * 2).
    { rewrite Nat2Z.inj_succ, Z.pow_succ_r by lia. lia. }
    set (q := m / 2 ^ Z.of_nat (S k)).
    assert (Hrem : m mod 2 ^ Z.of_nat (S k)
                   = m mod 2 ^ Z.of_nat k + 2 ^ Z.of_nat k * ((m / 2 ^ Z.of_nat k) mod 2)).
    { rewrite H2. apply Z.rem_mul_r; lia. }
    pose proof (Z.mod_pos_bound m (2 ^ Z.of_nat k) Hpos) as Hb.
    pose proof (Z.mod_pos_bound (m / 2 ^ Z.of_nat k) 2 ltac:(lia)) as Hb2.
    unfold rne. rewrite Hrem, H2, Zodd_mod. cbn [shr_m].
    destruct (Z.eqb_spec ((m / 2 ^ Z.of_nat k) mod 2) 1) as [H1|H1];
      destruct (Z.eqb_spec (m mod 2 ^ Z.of_nat k) 0) as [H0|H0]; cbn [negb loc_of_shr_record].
    + rewrite H1, H0. simpl round_nearest_even.
      destruct (Z.eqb_spec (0 + 2 ^ Z.of_nat k * 1) 0); [lia|].
      replace (2 * (0 + 2 ^ Z.of_nat k * 1) ?= 2 ^ Z.of_nat k * 2) with Eq
        by (symmetry; apply Z.compare_eq_iff; lia).
      reflexivity.
    + rewrite H1. simpl round_nearest_even.
      destruct (Z.eqb_spec (m mod 2 ^ Z.of_nat k + 2 ^ Z.of_nat k * 1) 0); [lia|].
      replace (2 * (m mod 2 ^ Z.of_nat k + 2 ^ Z.of_nat k * 1) ?= 2 ^ Z.of_nat k * 2) with Gt
        by (symmetry; apply Z.compare_gt_iff; lia).
      reflexivity.
    + assert (Hz : (m / 2 ^ Z.of_nat k) mod 2 = 0) by lia.
      rewrite Hz, H0. simpl round_nearest_even.
      destruct (Z.eqb_spec (0 + 2 ^ Z.of_nat k * 0) 0); [reflexivity|lia].
    + assert (Hz : (m / 2 ^ Z.of_nat k) mod 2 = 0) by lia.
      rewrite Hz. simpl round_nearest_even.
      destruct (Z.eqb_spec (m mod 2 ^ Z.of_nat k + 2 ^ Z.of_nat k * 0) 0); [lia|].
      replace (2 * (m mod 2 ^ Z.of_nat k + 2 ^ Z.of_nat k * 0) ?= 2 ^ Z.of_nat k * 2) with Lt
        by (symmetry; apply Z.compare_lt_iff; lia).
      reflexivity.
Qed.

Lemma shr_m_record_of_loc (m : Z) (l : location) : shr_m (shr_record_of_loc m l) = m.
Proof. now destruct l as [|[| |]]. Qed.

Lemma loc_of_record_of_loc (m : Z) (l : location) :
  loc_of_shr_record (shr_record_of_loc m l) = l.
Proof. now destruct l as [|[| |]]. Qed.

(** [shr_fexp] on a mantissa of at least 53 bits in the normal range:
    [n = digits - 53] bits are shifted out. *)
Lemma shr_fexp_normal (mx ex : Z) (lx : location) :
  0 < mx ->
  0 <= Zdigits2 mx - 53 ->
  -1074 <= ex + (Zdigits2 mx - 53) ->
  shr_fexp prec emax mx ex lx
  = (Nat.iter (Z.to_nat (Zdigits2 mx - 53)) shr_1 (shr_record_of_loc mx lx),
     ex + (Zdigits2 mx - 53)).
Proof.
  intros Hm Hn He. unfold shr_fexp, fexp, emin, prec, emax.
  replace (Z.max (Zdigits2 mx + ex - 53) (3 - 1024 - 53) - ex) with (Zdigits2 mx - 53) by lia.
  unfold shr. destruct (Zdigits2 mx - 53) as [|p|p] eqn:Hd; try lia.
  - rewrite Z.add_0_r. reflexivity.
  - rewrite iter_pos_nat. reflexivity.
Qed.

(** [binary_round_aux] on a mantissa of at least 53 bits, in the normal
    range and below the overflow threshold. *)
Lemma binary_round_aux_normal (s : bool) (mx ex : Z) (lx : location) :
  0 < mx ->
  0 <= Zdigits2 mx - 53 ->
  -1074 <= ex + (Zdigits2 mx - 53) ->
  ex + (Zdigits2 mx - 53) + 1 <= 971 ->
  exists M,
    binary_round_aux prec emax s mx ex lx = normalize s M (ex + (Zdigits2 mx - 53)) /\
    2 ^ 52 <= M <= 2 ^ 53 /\
    mx / 2 ^ (Zdigits2 mx - 53) <= M <= mx / 2 ^ (Zdigits2 mx - 53) + 1 /\
    (lx = loc_Exact ->
     M = rne (mx / 2 ^ (Zdigits2 mx - 53)) (mx mod 2 ^ (Zdigits2 mx - 53))
           (Zdigits2 mx - 53)).
Proof.
  intros Hm Hn Hlo Hhi.
  set (n := Zdigits2 mx - 53) in *.
  set (rec := Nat.iter (Z.to_nat n) shr_1 (shr_record_of_loc mx lx)).
  set (M := round_nearest_even (shr_m rec) (loc_of_shr_record rec)).
  assert (Hq : shr_m rec = mx / 2 ^ n).
  { unfold rec. rewrite iter_shr_1_m by (rewrite shr_m_record_of_loc; lia).
    now rewrite shr_m_record_of_loc, Z2Nat.id. }
  destruct (Zdigits2_bounds mx Hm) as [_ [Hdlo Hdhi]].
  replace (Zdigits2 mx) with (53 + n) in Hdlo, Hdhi by (unfold n; lia).
  assert (Hpn : 0 < 2 ^ n) by (apply Z.pow_pos_nonneg; lia).
  assert (Hqb : 2 ^ 52 <= mx / 2 ^ n < 2 ^ 53).
  { replace (53 + n - 1) with (52 + n) in Hdlo by lia.
    rewrite Z.pow_add_r in Hdlo, Hdhi by lia. split.
    - apply Z.div_le_lower_bound; lia.
    - apply Z.div_lt_upper_bound; lia. }
  assert (HM : mx / 2 ^ n <= M <= mx / 2 ^ n + 1).
  { unfold M. rewrite Hq. apply round_nearest_even_bounds. }
  exists M. split; [|split; [lia|split; [exact HM|]]].
  - unfold binary_round_aux. rewrite shr_fexp_normal by assumption.
    fold n rec M.
    destruct (Z.eqb_spec M (2 ^ 53)) as [HM53|HM53].
    + unfold normalize. rewrite HM53. rewrite Z.eqb_refl.
      unfold shr_fexp, fexp, emin, prec, emax.
      change (Zdigits2 (2 ^ 53)) with 54.
      replace (Z.max (54 + (ex + n) - 53) (3 - 1024 - 53) - (ex + n)) with 1 by lia.
      cbn [shr shr_record_of_loc iter_pos]. cbn [shr_1 shr_m].
      change (2 ^ 53) with (Zpos (xO (2 ^ 52)%positive)). cbn [shr_1 shr_m].
      destruct (Z.leb_spec (ex + n + 1) (1024 - 53)); [reflexivity|lia].
    + assert (Hd : Zdigits2 M = 53) by (apply Zdigits2_unique; simpl; lia).
      unfold normalize. apply Z.eqb_neq in HM53. rewrite HM53.
      unfold shr_fexp, fexp, emin, prec, emax. rewrite Hd.
      replace (Z.max (53 + (ex + n) - 53) (3 - 1024 - 53) - (ex + n)) with 0 by lia.
      cbn [shr shr_record_of_loc shr_m].
      destruct M as [|m|m]; try lia.
      destruct (Z.leb_spec (ex + n) (1024 - 53)); [reflexivity|lia].
  - intros ->. unfold M, rec. cbn [shr_record_of_loc].
    rewrite round_shr_exact by lia. now rewrite Z2Nat.id.
Qed.

Lemma rne_bounds (q rem n : Z) : q <= rne q rem n <= q + 1.
Proof.
  unfold rne. destruct (rem =? 0); [lia|].
  destruct (2 * rem ?= 2 ^ n); try lia. destruct (Z.even q); lia.
Qed.

(** Rounding to nearest even is monotone. *)
Lemma rne_mono (a b n : Z) :
  0 <= a <= b -> 0 <= n ->
  rne (a / 2 ^ n) (a mod 2 ^ n) n <= rne (b / 2 ^ n) (b mod 2 ^ n) n.
Proof.
  intros Hab Hn.
  assert (Hpn : 0 < 2 ^ n) by (apply Z.pow_pos_nonneg; lia).
  assert (Hq : a / 2 ^ n <= b / 2 ^ n) by (apply Z.div_le_mono; lia).
  pose proof (rne_bounds (a / 2 ^ n) (a mod 2 ^ n) n) as Ha.
  pose proof (rne_bounds (b / 2 ^ n) (b mod 2 ^ n) n) as Hb.
  destruct (Z.eq_dec (a / 2 ^ n) (b / 2 ^ n)) as [Heq|Hne]; [|lia].
  assert (Hr : a mod 2 ^ n <= b mod 2 ^ n).
  { pose proof (Z.div_mod a (2 ^ n) ltac:(lia)). pose proof (Z.div_mod b (2 ^ n) ltac:(lia)).
    rewrite Heq in *. lia. }
  clear Ha Hb. unfold rne. rewrite Heq.
  pose proof (Z.mod_pos_bound a (2 ^ n) Hpn).
  destruct (Z.eqb_spec (a mod 2 ^ n) 0), (Z.eqb_spec (b mod 2 ^ n) 0);
    destruct (Z.compare_spec (2 * (a mod 2 ^ n)) (2 ^ n));
    destruct (Z.compare_spec (2 * (b mod 2 ^ n)) (2 ^ n));
    destruct (Z.even (b / 2 ^ n)); lia.
Qed.

Lemma Pos_iter_xO (p k : positive) : Zpos (Pos.iter xO p k) = Zpos p * 2 ^ Zpos k.
Proof.
  induction k as [|k IH] using Pos.peano_ind.
  - simpl. lia.
  - rewrite Pos.iter_succ, Pos2Z.inj_xO, IH, Pos2Z.inj_succ, Z.pow_succ_r by lia. lia.
Qed.

Lemma normalize_normal (M E : Z) :
  2 ^ 52 <= M <= 2 ^ 53 -> -1074 <= E -> E + 1 <= 971 -> normal (normalize false M E).
Proof.
  intros HM Hlo Hhi. unfold normalize.
  destruct (Z.eqb_spec M (2 ^ 53)) as [->|Hne]; simpl.
  - lia.
  - destruct M as [|m|m]; try lia. simpl. lia.
Qed.

(** The order of two positive finite values, read on exponents and
    mantissas. *)
Lemma SFleb_finite (mx my : positive) (ex ey : Z) :
  SFleb (S754_finite false mx ex) (S754_finite false my ey) = true <->
  ex < ey \/ (ex = ey /\ Zpos mx <= Zpos my).
Proof.
  unfold SFleb. cbn [SFcompare].
  change (Pos.compare_cont Eq mx my) with (Pos.compare mx my).
  destruct (Z.compare_spec ex ey) as [He|He|He];
    destruct (Pos.compare_spec mx my) as [Hm|Hm|Hm];
    split; intros Hyp; try reflexivity; try discriminate; try lia.
Qed.

(** The order of two normalized values, read on mantissas and exponents. *)
Lemma normalize_le (M1 E1 M2 E2 : Z) :
  2 ^ 52 <= M1 <= 2 ^ 53 -> 2 ^ 52 <= M2 <= 2 ^ 53 ->
  E1 < E2 \/ (E1 = E2 /\ M1 <= M2) ->
  SFleb (normalize false M1 E1) (normalize false M2 E2) = true.
Proof.
  intros H1 H2 Hle.
  assert (Hp : Zpos (2 ^ 52)%positive = 2 ^ 52) by reflexivity.
  unfold normalize.
  destruct (Z.eqb_spec M1 (2 ^ 53)) as [Hc1|Hn1]; destruct (Z.eqb_spec M2 (2 ^ 53)) as [Hc2|Hn2];
    try (destruct M1 as [|m1|m1]; try lia); try (destruct M2 as [|m2|m2]; try lia);
    apply SFleb_finite; rewrite ?Hp; lia.
Qed.

(** The conversion of a positive [int]. *)
Lemma of_int_pos (a : Z) :
  0 < a < 2 ^ 63 ->
  exists M,
    Float64.of_int a = normalize false M (Zdigits2 a - 53) /\
    2 ^ 52 <= M <= 2 ^ 53 /\
    (Zdigits2 a <= 53 -> M = a * 2 ^ (53 - Zdigits2 a)) /\
    (53 <= Zdigits2 a ->
     M = rne (a / 2 ^ (Zdigits2 a - 53)) (a mod 2 ^ (Zdigits2 a - 53)) (Zdigits2 a - 53)).
Proof.
  intros Ha. destruct (Zdigits2_bounds a ltac:(lia)) as [Hd [Hlo Hhi]].
  assert (Hd63 : Zdigits2 a <= 63).
  { apply Z.nlt_ge. intros Hlt.
    assert (2 ^ 63 <= 2 ^ (Zdigits2 a - 1)) by (apply Z.pow_le_mono_r; lia). lia. }
  destruct a as [|p|p]; try lia.
  unfold Float64.of_int, binary_normalize, binary_round.
  set (d := Zdigits2 (Zpos p)) in *.
  change (digits2_pos p) with (digits2_pos p). change (Zpos (digits2_pos p)) with d.
  unfold fexp, emin, prec, emax.
  replace (Z.max (d + 0 - 53) (3 - 1024 - 53)) with (d - 53) by lia.
  unfold shl_align. rewrite Z.sub_0_r.
  destruct (d - 53) as [|k|k] eqn:Hk.
  - (* exactly 53 bits *)
    destruct (binary_round_aux_normal false (Zpos p) 0 loc_Exact) as (M & Hrun & HM & _ & Hex);
      fold d; try lia.
    specialize (Hex eq_refl). fold d in Hrun, Hex. rewrite Hk in Hrun, Hex.
    exists M. split; [exact Hrun|]. split; [exact HM|]. split.
    + intros _. rewrite Hex. replace (53 - d) with 0 by lia.
      change (2 ^ 0) with 1. rewrite Z.div_1_r, Z.mod_1_r, Z.mul_1_r. reflexivity.
    + intros _. exact Hex.
  - (* more than 53 bits *)
    destruct (binary_round_aux_normal false (Zpos p) 0 loc_Exact) as (M & Hrun & HM & _ & Hex);
      fold d; try lia.
    specialize (Hex eq_refl). fold d in Hrun, Hex. rewrite Hk in Hrun, Hex.
    exists M. split; [exact Hrun|]. split; [exact HM|]. split.
    + intros Hle. lia.
    + intros _. exact Hex.
  - (* fewer than 53 bits: the mantissa is shifted left, nothing is lost *)
    assert (Hmz : Zpos (Pos.iter xO p k) = Zpos p * 2 ^ (53 - d)).
    { rewrite Pos_iter_xO. f_equal. f_equal. lia. }
    assert (Hp2 : 2 ^ (d - 1) * 2 ^ (53 - d) = 2 ^ 52).
    { rewrite <- Z.pow_add_r by lia. f_equal. lia. }
    assert (Hp3 : 2 ^ d * 2 ^ (53 - d) = 2 ^ 53).
    { rewrite <- Z.pow_add_r by lia. f_equal. lia. }
    assert (Hpk : 0 < 2 ^ (53 - d)) by (apply Z.pow_pos_nonneg; lia).
    assert (Hmb : 2 ^ 52 <= Zpos (Pos.iter xO p k) < 2 ^ 53) by (rewrite Hmz; nia).
    assert (Hdz : Zdigits2 (Zpos (Pos.iter xO p k)) = 53)
      by (apply Zdigits2_unique; simpl; lia).
    destruct (binary_round_aux_normal false (Zpos (Pos.iter xO p k)) (Zneg k) loc_Exact)
      as (M & Hrun & HM & _ & Hex); rewrite ?Hdz; try lia.
    specialize (Hex eq_refl). rewrite Hdz in Hrun, Hex.
    replace (53 - 53) with 0 in Hrun, Hex by lia.
    change (2 ^ 0) with 1 in Hex. rewrite Z.div_1_r, Z.mod_1_r in Hex.
    change (rne (Zpos (Pos.iter xO p k)) 0 0) with (Zpos (Pos.iter xO p k)) in Hex.
    rewrite Z.add_0_r in Hrun.
    exists M. split; [exact Hrun|]. split; [exact HM|]. split.
    + intros _. now rewrite Hex.
    + intros Hge. lia.
Qed.

Lemma Zdigits2_mono (a b : Z) : 0 < a <= b -> Zdigits2 a <= Zdigits2 b.
Proof.
  intros Hab.
  destruct (Zdigits2_bounds a ltac:(lia)) as [Hda [Hlo _]].
  destruct (Zdigits2_bounds b ltac:(lia)) as [Hdb [_ Hhi]].
  apply Z.nlt_ge. intros Hlt.
  assert (2 ^ Zdigits2 b <= 2 ^ (Zdigits2 a - 1)) by (apply Z.pow_le_mono_r; lia). lia.
Qed.

(** The conversion of a positive [int] is a positive normal value with an
    exponent between -52 and 11. *)
Lemma of_int_normal (a : Z) :
  0 < a < 2 ^ 63 ->
  exists m e, Float64.of_int a = S754_finite false m e /\
              2 ^ 52 <= Zpos m < 2 ^ 53 /\ -52 <= e <= 11.
Proof.
  intros Ha. destruct (of_int_pos a Ha) as (M & Hrun & HM & _).
  destruct (Zdigits2_bounds a ltac:(lia)) as [Hd [Hlo Hhi]].
  assert (Hd63 : Zdigits2 a <= 63).
  { apply Z.nlt_ge. intros Hlt.
    assert (2 ^ 63 <= 2 ^ (Zdigits2 a - 1)) by (apply Z.pow_le_mono_r; lia). lia. }
  rewrite Hrun. unfold normalize.
  destruct (Z.eqb_spec M (2 ^ 53)) as [->|Hne].
  - exists (2 ^ 52)%positive, (Zdigits2 a - 53 + 1). split; [reflexivity|]. simpl. lia.
  - destruct M as [|m|m]; try lia.
    exists m, (Zdigits2 a - 53). split; [reflexivity|]. lia.
Qed.

(** The conversion of [int] to [float64] is monotone. *)
Lemma of_int_mono (a b : Z) :
  0 < a <= b -> b < 2 ^ 63 ->
  SFleb (Float64.of_int a) (Float64.of_int b) = true.
Proof.
  intros Hab Hb.
  destruct (of_int_pos a ltac:(lia)) as (Ma & Hra & HMa & Hsa & Hla).
  destruct (of_int_pos b ltac:(lia)) as (Mb & Hrb & HMb & Hsb & Hlb).
  rewrite Hra, Hrb. apply normalize_le; try assumption.
  pose proof (Zdigits2_mono a b Hab) as Hd.
  destruct (Z.eq_dec (Zdigits2 a) (Zdigits2 b)) as [Heq|Hne]; [right|left; lia].
  split; [lia|].
  destruct (Z.le_gt_cases (Zdigits2 a) 53) as [Hle|Hgt].
  - rewrite (Hsa Hle), (Hsb ltac:(lia)), Heq.
    apply Z.mul_le_mono_nonneg_r; [apply Z.pow_nonneg|]; lia.
  - rewrite (Hla ltac:(lia)), (Hlb ltac:(lia)), Heq.
    apply rne_mono; lia.
Qed.

(** The quotient of two positive normal values in ascending order is a
    positive normal value at most one. *)
Lemma SFdiv_le_one (mx my : positive) (ex ey : Z) :
  2 ^ 52 <= Zpos mx < 2 ^ 53 -> 2 ^ 52 <= Zpos my < 2 ^ 53 ->
  -52 <= ex <= 11 -> -52 <= ey <= 11 ->
  SFleb (S754_finite false mx ex) (S754_finite false my ey) = true ->
  exists mq eq,
    SF64div (S754_finite false mx ex) (S754_finite false my ey) = S754_finite false mq eq /\
    2 ^ 52 <= Zpos mq < 2 ^ 53 /\ -200 <= eq /\
    (eq <= -53 \/ (eq = -52 /\ Zpos mq = 2 ^ 52)).
Proof.
  intros Hmx Hmy Hex Hey Hle.
  apply SFleb_finite in Hle.
  unfold SF64div, SFdiv, SFdiv_core_binary.
  rewrite (Zdigits2_unique (Zpos mx) 53) by (simpl; lia).
  rewrite (Zdigits2_unique (Zpos my) 53) by (simpl; lia).
  unfold fexp, emin, prec, emax.
  replace (Z.min (Z.max (53 + ex - (53 + ey) - 53) (3 - 1024 - 53)) (ex - ey))
    with (ex - ey - 53) by lia.
  replace (ex - ey - (ex - ey - 53)) with 53 by lia.
  rewrite Z.shiftl_mul_pow2 by lia.
  destruct (Z.div_eucl (Zpos mx * 2 ^ 53) (Zpos my)) as [q r] eqn:Hdiv.
  assert (Hq : q = Zpos mx * 2 ^ 53 / Zpos my) by (unfold Z.div; now rewrite Hdiv).
  assert (Hr : r = (Zpos mx * 2 ^ 53) mod Zpos my) by (unfold Z.modulo; now rewrite Hdiv).
  assert (Hqlo : 2 ^ 52 <= q) by (rewrite Hq; apply Z.div_le_lower_bound; lia).
  assert (Hqhi : q < 2 ^ 54) by (rewrite Hq; apply Z.div_lt_upper_bound; lia).
  cbn [xorb].
  destruct (Z.lt_ge_cases q (2 ^ 53)) as [Hq53|Hq53].
  - (* a quotient of 53 bits *)
    assert (Hd : Zdigits2 q = 53) by (apply Zdigits2_unique; simpl; lia).
    destruct (binary_round_aux_normal false q (ex - ey - 53) (new_location (Zpos my) r))
      as (M & Hrun & HM & _ & _); rewrite ?Hd; try lia.
    unfold prec, emax in Hrun.
    rewrite Hrun, Hd. replace (ex - ey - 53 + (53 - 53)) with (ex - ey - 53) by lia.
    unfold normalize. destruct (Z.eqb_spec M (2 ^ 53)) as [->|Hne].
    + exists (2 ^ 52)%positive, (ex - ey - 53 + 1). split; [reflexivity|].
      split; [simpl; lia|]. split; [lia|]. simpl. lia.
    + destruct M as [|m|m]; try lia.
      exists m, (ex - ey - 53). split; [reflexivity|].
      split; [lia|]. split; [lia|]. left. lia.
  - (* a quotient of 54 bits *)
    assert (Hd : Zdigits2 q = 54) by (apply Zdigits2_unique; simpl; lia).
    destruct (binary_round_aux_normal false q (ex - ey - 53) (new_location (Zpos my) r))
      as (M & Hrun & HM & HMq & Hexact); rewrite ?Hd; try lia.
    unfold prec, emax in Hrun.
    rewrite Hrun, Hd. replace (ex - ey - 53 + (54 - 53)) with (ex - ey - 52) by lia.
    rewrite Hd in HMq, Hexact. change (54 - 53) with 1 in HMq, Hexact.
    destruct Hle as [Hlt|[Heq Hm]].
    + unfold normalize. destruct (Z.eqb_spec M (2 ^ 53)) as [->|Hne].
      * exists (2 ^ 52)%positive, (ex - ey - 52 + 1). split; [reflexivity|].
        split; [simpl; lia|]. split; [lia|]. simpl. lia.
      * destruct M as [|m|m]; try lia.
        exists m, (ex - ey - 52). split; [reflexivity|].
        split; [lia|]. split; [lia|]. left. lia.
    + (* equal exponents: the quotient is exactly one *)
      assert (Hmm : Zpos mx = Zpos my).
      { apply Z.le_antisymm; [exact Hm|].
        apply Z.nlt_ge. intros Hlt.
        assert (q < 2 ^ 53) by (rewrite Hq; apply Z.div_lt_upper_bound; lia). lia. }
      rewrite Hmm in Hq, Hr.
      rewrite Z.mul_comm, Z.div_mul in Hq by lia.
      rewrite Z.mul_comm, Z.mod_mul in Hr by lia.
      assert (Hloc : new_location (Zpos my) r = loc_Exact).
      { subst r. unfold new_location, new_location_even, new_location_odd.
        now destruct (Z.even (Zpos my)). }
      specialize (Hexact Hloc). subst q. 
      change (rne (2 ^ 53 / 2 ^ 1) (2 ^ 53 mod 2 ^ 1) 1) with (2 ^ 52) in Hexact.
      subst M. exists (2 ^ 52)%positive, (ex - ey - 52).
      split; [reflexivity|]. split; [simpl; lia|]. split; [lia|]. right.
      split; [lia|reflexivity].
Qed.

(** A positive normal value at most one, times one hundred, lies between
    zero and one hundred. *)
Lemma SFmul_100_bounds (mq : positive) (eq : Z) :
  2 ^ 52 <= Zpos mq < 2 ^ 53 -> -200 <= eq ->
  eq <= -53 \/ (eq = -52 /\ Zpos mq = 2 ^ 52) ->
  SFleb Float64.zero (SF64mul (S754_finite false mq eq) (Float64.of_int 100)) = true /\
  SFleb (SF64mul (S754_finite false mq eq) (Float64.of_int 100)) (Float64.of_int 100) = true.
Proof.
  intros Hmq Hlo [Heq|[Heq Hone]].
  - change (Float64.of_int 100) with (S754_finite false 7036874417766400 (-46)).
    unfold SF64mul, SFmul. cbn [xorb].
    set (P := Zpos (mq * 7036874417766400)).
    assert (HP : P = Zpos mq * (25 * 2 ^ 48)) by (unfold P; rewrite Pos2Z.inj_mul; reflexivity).
    assert (HPlo : 2 ^ 104 <= P) by (rewrite HP; change (2 ^ 104) with (2 ^ 52 * 2 ^ 52); nia).
    assert (HPhi : P < 2 ^ 106) by (rewrite HP; change (2 ^ 106) with (2 ^ 53 * 2 ^ 53); nia).
    assert (Hzero : forall M E, 2 ^ 52 <= M <= 2 ^ 53 ->
                                SFleb Float64.zero (normalize false M E) = true).
    { intros M E HM. unfold normalize. destruct (M =? 2 ^ 53); [reflexivity|].
      destruct M as [|m|m]; try lia. reflexivity. }
    change (S754_finite false 7036874417766400 (-46))
      with (normalize false (25 * 2 ^ 48) (-46)).
    destruct (Z.lt_ge_cases P (2 ^ 105)) as [H105|H105].
    + assert (Hd : Zdigits2 P = 105) by (apply Zdigits2_unique; simpl; lia).
      destruct (binary_round_aux_normal false P (eq + -46) loc_Exact)
        as (M & Hrun & HM & _ & _); rewrite ?Hd; try lia.
      rewrite Hrun, Hd. split; [now apply Hzero|].
      apply normalize_le; [assumption|simpl; lia|]. left. lia.
    + assert (Hd : Zdigits2 P = 106) by (apply Zdigits2_unique; simpl; lia).
      destruct (binary_round_aux_normal false P (eq + -46) loc_Exact)
        as (M & Hrun & HM & HMq & _); rewrite ?Hd; try lia.
      rewrite Hrun, Hd. split; [now apply Hzero|].
      rewrite Hd in HMq. change (106 - 53) with 53 in *.
      assert (Hquot : P / 2 ^ 53 < 25 * 2 ^ 48).
      { apply Z.div_lt_upper_bound; [lia|]. rewrite HP. nia. }
      apply normalize_le; [assumption|simpl; lia|].
      destruct (Z.eq_dec eq (-53)) as [->|Hne]; [right|left; lia].
      split; lia.
  - subst eq. assert (Hm : mq = (2 ^ 52)%positive) by (apply Pos2Z.inj; exact Hone).
    subst mq. split; reflexivity.
Qed.

Lemma fileItemHTML_percent_eq (numStmtCovered numStmt : Z) :
  Legacy.fileItemHTML_percent numStmtCovered numStmt
  = Legacy.openHeadingHTML_percent numStmtCovered numStmt.
Proof.
  unfold Legacy.fileItemHTML_percent, Legacy.fileItemHTML_vars, Legacy.openHeadingHTML_percent.
  destruct (numStmt =? 0); [reflexivity|].
  destruct (Float64.gtb _ _); [reflexivity|].
  destruct (Float64.ltb _ _); reflexivity.
Qed.

(** ** The coverage percentage *)

(** Claim C3.  The percentage that [openHeadingHTML] and [fileItemHTML]
    display is 0 when the statement count is 0, and otherwise the quotient of
    the covered count by the statement count, times 100, computed in
    [float64]; when [0 <= numStmtCovered <= numStmt], with [numStmt] an
    [int], the percentage lies between 0 and 100. *)
Theorem percent_between_0_and_100 :
  (forall numStmtCovered : Z,
      Legacy.openHeadingHTML_percent numStmtCovered 0 = Float64.zero /\
      Legacy.fileItemHTML_percent numStmtCovered 0 = Float64.zero) /\
  (forall numStmtCovered numStmt : Z,
      numStmt <> 0 ->
      Legacy.openHeadingHTML_percent numStmtCovered numStmt
      = Float64.mul (Float64.div (Float64.of_int numStmtCovered) (Float64.of_int numStmt))
          (Float64.of_int 100) /\
      Legacy.fileItemHTML_percent numStmtCovered numStmt
      = Float64.mul (Float64.div (Float64.of_int numStmtCovered) (Float64.of_int numStmt))
          (Float64.of_int 100)) /\
  (forall numStmtCovered numStmt : Z,
      0 <= numStmtCovered <= numStmt -> numStmt < 2 ^ 63 ->
      Float64.leb Float64.zero (Legacy.openHeadingHTML_percent numStmtCovered numStmt) = true /\
      Float64.leb (Legacy.openHeadingHTML_percent numStmtCovered numStmt) (Float64.of_int 100)
      = true /\
      Float64.leb Float64.zero (Legacy.fileItemHTML_percent numStmtCovered numStmt) = true /\
      Float64.leb (Legacy.fileItemHTML_percent numStmtCovered numStmt) (Float64.of_int 100)
      = true).
Proof.
  split; [|split].
  - intros c. rewrite fileItemHTML_percent_eq. split; reflexivity.
  - intros c n Hn. rewrite fileItemHTML_percent_eq.
    unfold Legacy.openHeadingHTML_percent.
    apply Z.eqb_neq in Hn. rewrite Hn. split; reflexivity.
  - intros c n Hc Hn. rewrite fileItemHTML_percent_eq.
    enough (Float64.leb Float64.zero (Legacy.openHeadingHTML_percent c n) = true /\
            Float64.leb (Legacy.openHeadingHTML_percent c n) (Float64.of_int 100) = true)
      by tauto.
    unfold Legacy.openHeadingHTML_percent, Float64.leb, Float64.mul, Float64.div.
    destruct (Z.eqb_spec n 0) as [Hz|Hnz]; [split; reflexivity|].
    destruct (of_int_normal n ltac:(lia)) as (my & ey & Hy & Hmy & Hey).
    destruct (Z.eq_dec c 0) as [->|Hcz].
    + rewrite Hy. split; reflexivity.
    + destruct (of_int_normal c ltac:(lia)) as (mx & ex & Hx & Hmx & Hex).
      pose proof (of_int_mono c n ltac:(lia) Hn) as Hle.
      rewrite Hx, Hy in Hle |- *.
      destruct (SFdiv_le_one mx my ex ey Hmx Hmy Hex Hey Hle)
        as (mq & eq & Hq & Hmq & Heq & Hone).
      rewrite Hq. now apply SFmul_100_bounds.
Qed.

Lemma percent_between_0_and_100_witness :
  Float64.leb Float64.zero (Legacy.openHeadingHTML_percent 1 3) = true /\
  Float64.leb (Legacy.openHeadingHTML_percent 1 3) (Float64.of_int 100) = true /\
  Float64.leb Float64.zero (Legacy.fileItemHTML_percent 1 3) = true /\
  Float64.leb (Legacy.fileItemHTML_percent 1 3) (Float64.of_int 100) = true.
Proof.
  apply (proj2 (proj2 percent_between_0_and_100) 1 3); lia.
Defined.

(** ** The ignore list *)

(** Joining the fragments of a split gives the string back. *)
Lemma Join_Split (s : string) (sep : ascii) : Join (Split s sep) sep = s.
Proof.
  induction s as [|c s IH]; [reflexivity|].
  simpl. pose proof (Split_nonempty s sep) as Hne.
  destruct (Ascii.eqb_spec c sep) as [->|Hc].
  - destruct (Split s sep) as [|frag frags] eqn:Hs; [congruence|].
    change (Join (EmptyString :: frag :: frags) sep)
      with (String sep (Join (frag :: frags) sep)).
    now rewrite IH.
  - destruct (Split s sep) as [|frag frags] eqn:Hs; [congruence|].
    destruct frags as [|frag' frags].
    + simpl in IH |- *. now rewrite IH.
    + change (Join (String c frag :: frag' :: frags) sep)
        with (String c (frag ++ String sep (Join (frag' :: frags) sep))).
      change (Join (frag :: frag' :: frags) sep)
        with (frag ++ String sep (Join (frag' :: frags) sep)) in IH.
      now rewrite IH.
Qed.

(** No fragment of a split holds the separator. *)
Lemma Split_fragments (s : string) (sep : ascii) :
  Forall (fun frag => forall_bytes (fun b => negb (Ascii.eqb b sep)) frag = true)
    (Split s sep).
Proof.
  induction s as [|c s IH]; simpl.
  - repeat constructor.
  - destruct (Ascii.eqb c sep) eqn:Hc.
    + constructor; [reflexivity|exact IH].
    + destruct (Split s sep) as [|frag frags]; [repeat constructor; simpl; now rewrite Hc|].
      inversion IH as [|? ? Hfrag Hfrags]; subst.
      constructor; [|assumption]. simpl. now rewrite Hc, Hfrag.
Qed.

(** Property X1.
    [ParseIgnores] gives no pattern for the empty argument; for any other
    argument it gives the comma-separated fragments, at least one, none of
    them holding a comma, which joined by commas are the argument again; and
    a non-empty list of comma-free patterns, not the single empty pattern, is
    read back from its comma-separated form. *)
Theorem ParseIgnores_fragments :
  CLI.ParseIgnores EmptyString = [] /\
  (forall ignores : string,
      ignores <> EmptyString ->
      CLI.ParseIgnores ignores <> [] /\
      Forall (fun pattern => no_comma pattern = true) (CLI.ParseIgnores ignores) /\
      Join (CLI.ParseIgnores ignores) "," = ignores) /\
  (forall patterns : list string,
      patterns <> [] -> patterns <> [EmptyString] ->
      Forall (fun pattern => no_comma pattern = true) patterns ->
      CLI.ParseIgnores (Join patterns ",") = patterns).
Proof.
  split; [reflexivity|]. split.
  - intros ignores Hne. unfold CLI.ParseIgnores.
    apply String.eqb_neq in Hne. rewrite Hne.
    split; [apply Split_nonempty|]. split; [apply Split_fragments|apply Join_Split].
  - intros patterns Hne Hne' Hall. unfold CLI.ParseIgnores.
    destruct (String.eqb_spec (Join patterns ",") EmptyString) as [Hempty|_].
    + exfalso. destruct patterns as [|p [|p' patterns]]; [congruence| |].
      * simpl in Hempty. congruence.
      * change (Join (p :: p' :: patterns) ",")
          with (p ++ String "," (Join (p' :: patterns) ",")) in Hempty.
        destruct p; discriminate.
    + now apply Split_Join.
Qed.

Lemma ParseIgnores_fragments_witness :
  CLI.ParseIgnores "example.txt,foobar,/.tmp" = ["example.txt"; "foobar"; "/.tmp"].
Proof.
  apply (proj2 (proj2 ParseIgnores_fragments) ["example.txt"; "foobar"; "/.tmp"]).
  - discriminate.
  - discriminate.
  - repeat constructor.
Defined.

(** ** What escaping guarantees *)

Lemma forall_bytes_app (p : ascii -> bool) (s1 s2 : string) :
  forall_bytes p (s1 ++ s2) = forall_bytes p s1 && forall_bytes p s2.
Proof.
  induction s1 as [|b s1 IH]; simpl; [reflexivity|].
  now rewrite IH, andb_assoc.
Qed.

Lemma forall_bytes_map_bytes (p : ascii -> bool) (f : ascii -> string) (s : string) :
  (forall b, forall_bytes p (f b) = true) -> forall_bytes p (map_bytes f s) = true.
Proof.
  intros H. induction s as [|b s IH]; simpl; [reflexivity|].
  now rewrite forall_bytes_app, H, IH.
Qed.

Lemma escape_byte_plain (b : ascii) :
  forall_bytes plain_byte (Internal.escape_byte b) = true.
Proof.
  unfold Internal.escape_byte.
  destruct (Ascii.eqb b ">") eqn:H1; [reflexivity|].
  destruct (Ascii.eqb b "<") eqn:H2; [reflexivity|].
  destruct (Ascii.eqb b "&") eqn:H3; [reflexivity|].
  destruct (Ascii.eqb b tab) eqn:H4; [reflexivity|].
  simpl. unfold plain_byte. now rewrite H1, H2, H4.
Qed.

Lemma chained_escape_byte_plain (b : ascii) :
  forall_bytes plain_byte (chained_escape_byte b) = true.
Proof.
  unfold chained_escape_byte.
  destruct (Ascii.eqb b ">") eqn:H1; [reflexivity|].
  destruct (Ascii.eqb b "<") eqn:H2; [reflexivity|].
  destruct (Ascii.eqb b "&") eqn:H3; [reflexivity|].
  destruct (Ascii.eqb b tab) eqn:H4; [reflexivity|].
  simpl. unfold plain_byte. now rewrite H1, H2, H4.
Qed.

Lemma escape_from_plain (line : string) :
  forall pending, forall_bytes plain_byte (Internal.escape_from pending line) = true.
Proof.
  induction line as [|b line IH]; intros pending; [reflexivity|].
  destruct pending as [|pending].
  - change (Internal.escape_from 0 (String b line))
      with (Internal.escape_byte b
            ++ Internal.escape_from (rune_width (String b line) - 1) line).
    now rewrite forall_bytes_app, escape_byte_plain, IH.
  - apply IH.
Qed.

(** Property X2.
    Whatever the line, bytes of any value, well-formed UTF-8 or not,
    [WriteHTMLEscapedCode] writes neither [<] nor [>] nor a tab. *)
Theorem WriteHTMLEscapedCode_writes_no_angle_bracket (line : string) :
  forall_bytes plain_byte (Internal.WriteHTMLEscapedCode line) = true.
Proof.
  apply escape_from_plain.
Qed.

(** Property X3.
    The four chained replacements of [GoFile.write] rewrite a line byte by
    byte: [>] becomes [&amp;gt;] and [<] becomes [&amp;lt;] (the ampersand of
    the entity written first is escaped again), [&] becomes [&amp;], a tab
    becomes four spaces and any other byte is kept; the result holds neither
    [<] nor [>] nor a tab, and the replacement of a concatenation is the
    concatenation of the replacements. *)
Theorem write_escape_byte_by_byte :
  (forall code : string, Legacy.escape code = map_bytes chained_escape_byte code) /\
  (forall code : string, forall_bytes plain_byte (Legacy.escape code) = true) /\
  (forall code1 code2 : string,
      Legacy.escape (code1 ++ code2) = Legacy.escape code1 ++ Legacy.escape code2).
Proof.
  split; [exact legacy_escape_bytes|]. split.
  - intros code. rewrite legacy_escape_bytes.
    apply forall_bytes_map_bytes, chained_escape_byte_plain.
  - intros code1 code2. rewrite !legacy_escape_bytes. apply map_bytes_app.
Qed.

Lemma unescaped_byte_inv (b : ascii) :
  unescaped_byte b = true ->
  Ascii.eqb b ">" = false /\ Ascii.eqb b "<" = false /\
  Ascii.eqb b "&" = false /\ Ascii.eqb b tab = false.
Proof.
  unfold unescaped_byte, plain_byte. intros H.
  apply andb_true_iff in H as [H H3]. apply andb_true_iff in H as [H H4].
  apply andb_true_iff in H as [H1 H2].
  now rewrite negb_true_iff in H1, H2, H3, H4.
Qed.

Lemma map_bytes_unescaped (f : ascii -> string) (line : string) :
  (forall b, unescaped_byte b = true -> f b = String b EmptyString) ->
  forall_bytes unescaped_byte line = true -> map_bytes f line = line.
Proof.
  intros Hf. induction line as [|b line IH]; [reflexivity|].
  simpl. intros H. apply andb_true_iff in H as [Hb Hrest].
  now rewrite (Hf b Hb), (IH Hrest).
Qed.

(** Property X4.
    A line of ASCII bytes none of which is [>], [<], [&] or a tab is
    written as it is, by [WriteHTMLEscapedCode] and by the chained
    replacements of [GoFile.write] alike. *)
Theorem escaping_keeps_plain_lines (line : string) :
  ascii_only line = true ->
  forall_bytes unescaped_byte line = true ->
  Internal.WriteHTMLEscapedCode line = line /\ Legacy.escape line = line.
Proof.
  intros Hascii Hplain. split.
  - rewrite (WriteHTMLEscapedCode_bytes _ (ascii_only_single_byte_runes _ Hascii)).
    apply map_bytes_unescaped; [|assumption].
    intros b Hb. destruct (unescaped_byte_inv b Hb) as (H1 & H2 & H3 & H4).
    unfold Internal.escape_byte. now rewrite H1, H2, H3, H4.
  - rewrite legacy_escape_bytes.
    apply map_bytes_unescaped; [|assumption].
    intros b Hb. destruct (unescaped_byte_inv b Hb) as (H1 & H2 & H3 & H4).
    unfold chained_escape_byte. now rewrite H1, H2, H3, H4.
Qed.

Lemma escaping_keeps_plain_lines_witness :
  Internal.WriteHTMLEscapedCode "func main() {}" = "func main() {}" /\
  Legacy.escape "func main() {}" = "func main() {}".
Proof.
  apply escaping_keeps_plain_lines; reflexivity.
Defined.

(** ** The annotator on arbitrary blocks *)

Lemma select_count_sound (Profile : list ProfileBlock) (i : nat) (lineNumber c : Z) :
  snd (Internal.select_count Profile i lineNumber) = Some c ->
  exists b, In b Profile /\ contains b lineNumber /\ Count b = c.
Proof.
  rewrite select_count_skipn.
  destruct (skipn i Profile) as [|p0 rest] eqn:Hs; [discriminate|].
  destruct (skipn_cons_inv _ _ _ _ Hs) as (Hn0 & _ & Hrest).
  destruct (EndLine p0 <? lineNumber).
  - destruct rest as [|p1 rest']; [discriminate|].
    destruct (skipn_cons_inv _ _ _ _ Hrest) as (Hn1 & _ & _).
    simpl. destruct (containsb p1 lineNumber) eqn:Hc; [|discriminate].
    intros H. inversion H; subst. exists p1.
    split; [eapply nth_error_In; eassumption|].
    split; [now apply containsb_true|reflexivity].
  - simpl. destruct (containsb p0 lineNumber) eqn:Hc; [|discriminate].
    intros H. inversion H; subst. exists p0.
    split; [eapply nth_error_In; eassumption|].
    split; [now apply containsb_true|reflexivity].
Qed.

Lemma line_calls_sound (Profile : list ProfileBlock) (lines : list string) :
  forall (i : nat) (lineNumber : Z) (k : nat) (n c : Z) (line : string),
    nth_error (Internal.line_calls Profile i lineNumber lines) k = Some (n, Some c, line) ->
    exists b, In b Profile /\ contains b n /\ Count b = c.
Proof.
  induction lines as [|l lines IH]; intros i lineNumber k n c line Hk.
  - destruct k; discriminate.
  - simpl in Hk.
    pose proof (select_count_sound Profile i lineNumber) as Hsound.
    destruct (Internal.select_count Profile i lineNumber) as [i' count].
    destruct k as [|k]; simpl in Hk.
    + inversion Hk; subst. now apply Hsound.
    + eapply IH. eassumption.
Qed.

(** Property X5.
    Whatever the block list, sorted or not, overlapping or not, a count
    that [AddFile] selects for a line is the count of a block of the profile
    whose range contains the line: no line outside every block is ever marked
    covered or uncovered. *)
Theorem AddFile_marks_only_lines_inside_blocks
  (Profile : list ProfileBlock) (src : string) (idx : nat) (n c : Z) (line : string) :
  nth_error (Internal.file_calls Profile src) idx = Some (n, Some c, line) ->
  exists b, In b Profile /\ contains b n /\ Count b = c.
Proof.
  unfold Internal.file_calls. apply line_calls_sound.
Qed.

Lemma AddFile_marks_only_lines_inside_blocks_witness :
  exists b, In b [block 1 3 5; block 2 2 9] /\ contains b 2 /\ Count b = 5.
Proof.
  apply (AddFile_marks_only_lines_inside_blocks [block 1 3 5; block 2 2 9]
           (Join ["a"; "b"; "c"] newline) 1 2 5 "b").
  reflexivity.
Defined.

Lemma line_calls_numbers (Profile : list ProfileBlock) (lines : list string) :
  forall (i : nat) (lineNumber : Z),
    map (fun call : Z * option Z * string => fst (fst call))
        (Internal.line_calls Profile i lineNumber lines)
    = map (fun k => lineNumber + Z.of_nat k) (seq 0 (List.length lines)) /\
    map snd (Internal.line_calls Profile i lineNumber lines) = lines.
Proof.
  induction lines as [|l lines IH]; intros i lineNumber; [split; reflexivity|].
  simpl. destruct (Internal.select_count Profile i lineNumber) as [i' count].
  destruct (IH i' (lineNumber + 1)) as [Hn Hl]. simpl. split.
  - rewrite Z.add_0_r. f_equal. rewrite Hn, <- seq_shift, map_map.
    apply map_ext. intros k. lia.
  - now rewrite Hl.
Qed.

(** Property X6.
    [AddFile] renders every line of the source once, in order: the calls
    to [WriteHTMLEscapedLine] are numbered 1, 2, 3, ..., there is at least one
    (an empty source is one empty line), one more than the source has line
    feeds, and their lines joined by line feeds are the source text. *)
Theorem AddFile_renders_every_line (Profile : list ProfileBlock) (src : string) :
  Internal.file_calls Profile src <> [] /\
  map (fun call : Z * option Z * string => fst (fst call)) (Internal.file_calls Profile src)
  = map (fun k => 1 + Z.of_nat k) (seq 0 (List.length (Internal.file_calls Profile src))) /\
  Join (map snd (Internal.file_calls Profile src)) newline = src.
Proof.
  unfold Internal.file_calls.
  destruct (line_calls_numbers Profile (Split src newline) 0 1) as [Hn Hl].
  assert (Hlen : List.length (Internal.line_calls Profile 0 1 (Split src newline))
                 = List.length (Split src newline)).
  { rewrite <- Hl at 2. now rewrite length_map. }
  split; [|split].
  - intros H. rewrite H in Hlen. simpl in Hlen.
    pose proof (Split_nonempty src newline). destruct (Split src newline); [congruence|discriminate].
  - now rewrite Hn, Hlen.
  - rewrite Hl. apply Join_Split.
Qed.

(** ** Failure and success of the projector *)

Lemma find_app_first {A : Type} (p : A -> bool) (l1 l2 : list A) :
  find p (l1 ++ l2) = match find p l1 with Some x => Some x | None => find p l2 end.
Proof.
  induction l1 as [|x l1 IH]; simpl; [reflexivity|]. now destruct (p x).
Qed.

Section Outcome.

Variable Percent : Internal.GoListItem.t -> Float64.float64.
Variable ReadFile : string -> option string.

(** What a traversal of [files] comes to: the error of the first file that
    cannot be read, or a result. *)
Abbreviation outcome files run :=
  (match first_unreadable ReadFile files with
   | Some file => run = Internal.Err (Internal.CantRead (Internal.GoFile.RelPkgPath file))
   | None => exists td' : Internal.TemplateData.t, run = Internal.Ok td'
   end).

Lemma AddDir_files_outcome (at_ : nat) (files : list Internal.GoFile.t) :
  forall td, outcome files (Internal.AddDir_files Percent ReadFile at_ files td).
Proof.
  induction files as [|file files IH]; intros td.
  - simpl. now exists td.
  - unfold first_unreadable. cbn [find]. unfold unreadable at 1.
    destruct (ReadFile (Internal.GoFile.ABSPath file)) as [src|] eqn:Hsrc.
    + cbn [Internal.AddDir_files]. rewrite (AddFile_readable _ _ _ _ _ Hsrc).
      cbn [Internal.bind]. apply IH.
    + cbn [Internal.AddDir_files]. rewrite (AddFile_unreadable _ _ _ _ Hsrc). reflexivity.
Qed.

Lemma AddDir_subDirs_outcome
  (rec : Internal.GoDir.t -> Internal.TemplateData.t -> Internal.result Internal.TemplateData.t)
  (at_ : nat) (subDirs : list Internal.GoDir.t) :
  Forall (fun subDir => forall td, outcome (files_under subDir) (rec subDir td)) subDirs ->
  forall td,
    outcome (flat_map files_under subDirs) (Internal.AddDir_subDirs Percent rec at_ subDirs td).
Proof.
  induction subDirs as [|subDir subDirs IH]; intros Hall td.
  - simpl. now exists td.
  - inversion Hall as [|? ? Hrec Hrest]; subst.
    cbn [flat_map]. unfold first_unreadable. rewrite find_app_first.
    specialize (Hrec td). unfold first_unreadable in Hrec.
    cbn [Internal.AddDir_subDirs].
    destruct (find (unreadable ReadFile) (files_under subDir)) as [file|].
    + now rewrite Hrec.
    + destruct Hrec as [td' Hrun]. rewrite Hrun. cbn [Internal.bind].
      apply (IH Hrest).
Qed.

(** Property X7.
    [AddDir] fails exactly when a file under the directory cannot be read,
    and the error it returns is that of the first such file in the order of
    the traversal (the files of a sub-directory before those of the next
    sub-directory, the directory's own files last); otherwise it returns a
    result. *)
Theorem AddDir_fails_on_first_unreadable_file (dir : Internal.GoDir.t) :
  forall td, outcome (files_under dir) (Internal.AddDir Percent ReadFile dir td).
Proof.
  induction dir as [item rel subDirs files IH] using GoDir_tree_ind. intros td.
  pose proof (AddDir_subDirs_outcome (Internal.AddDir Percent ReadFile)
                (List.length (Internal.TemplateData.Views td)) subDirs IH) as Hsub.
  cbn [files_under Internal.AddDir]. unfold first_unreadable in *.
  rewrite find_app_first.
  match goal with
  | |- context [Internal.AddDir_subDirs _ _ _ _ ?td0] => specialize (Hsub td0)
  end.
  destruct (find (unreadable ReadFile) (flat_map files_under subDirs)) as [file|].
  - now rewrite Hsub.
  - destruct Hsub as [td' Hrun]. rewrite Hrun. cbn [Internal.bind].
    apply AddDir_files_outcome.
Qed.

End Outcome.

(** ** The views of a successful report *)

Lemma map_update_nth {A B : Type} (g : A -> B) (f : A -> A) (at_ : nat) (l : list A) :
  (forall x, g (f x) = g x) -> map g (Internal.update_nth at_ f l) = map g l.
Proof.
  intros H. revert at_. induction l as [|x l IH]; intros [|at_]; simpl; try reflexivity.
  - now rewrite H.
  - now rewrite IH.
Qed.

Section Keys.

Variable Percent : Internal.GoListItem.t -> Float64.float64.
Variable ReadFile : string -> option string.

(** [td'] extends [td] by the views of [nodes]: the views already there
    keep their identifiers, those of [nodes] follow in order, and the initial
    identifier and the cut lines are unchanged. *)
Abbreviation extends td td' nodes :=
  (view_keys td' = List.app (view_keys td) (map node_key nodes) /\
   Internal.TemplateData.InitialID td' = Internal.TemplateData.InitialID td /\
   Internal.TemplateData.Cutlines td' = Internal.TemplateData.Cutlines td).

Lemma update_view_keys (at_ : nat) (f : Internal.TemplateViewData.t -> Internal.TemplateViewData.t)
  (td : Internal.TemplateData.t) :
  (forall view, view_key (f view) = view_key view) ->
  extends td (Internal.update_view at_ f td) [].
Proof.
  intros H. unfold view_keys, Internal.update_view. simpl.
  rewrite app_nil_r. now rewrite (map_update_nth view_key f at_ _ H).
Qed.

Lemma AddFile_keys (file : Internal.GoFile.t) (td td' : Internal.TemplateData.t) :
  Internal.AddFile Percent ReadFile file td = Internal.Ok td' ->
  extends td td' [NFile file].
Proof.
  unfold Internal.AddFile.
  destruct (ReadFile (Internal.GoFile.ABSPath file)) as [src|]; [|discriminate].
  intros H. inversion H; subst; clear H.
  unfold view_keys, Internal.update_view, Internal.append_view. simpl.
  rewrite (map_update_nth view_key) by reflexivity.
  now rewrite map_app.
Qed.

Lemma AddDir_files_keys (at_ : nat) (files : list Internal.GoFile.t) :
  forall td td',
    Internal.AddDir_files Percent ReadFile at_ files td = Internal.Ok td' ->
    extends td td' (map NFile files).
Proof.
  induction files as [|file files IH]; intros td td' Hrun.
  - simpl in Hrun. inversion Hrun; subst. simpl. now rewrite app_nil_r.
  - cbn [Internal.AddDir_files] in Hrun.
    destruct (Internal.AddFile Percent ReadFile file td) as [td1|] eqn:Hfile; [|discriminate].
    cbn [Internal.bind] in Hrun.
    destruct (AddFile_keys _ _ _ Hfile) as (Hk1 & Hi1 & Hc1).
    match type of Hrun with
    | Internal.AddDir_files _ _ _ _ (Internal.update_view _ ?f _) = _ =>
        destruct (update_view_keys at_ f td1 ltac:(reflexivity)) as (Hk2 & Hi2 & Hc2)
    end.
    destruct (IH _ _ Hrun) as (Hk3 & Hi3 & Hc3).
    rewrite app_nil_r in Hk2.
    split; [|split; congruence].
    rewrite Hk3, Hk2, Hk1, <- app_assoc. reflexivity.
Qed.

Lemma AddDir_subDirs_keys
  (rec : Internal.GoDir.t -> Internal.TemplateData.t -> Internal.result Internal.TemplateData.t)
  (at_ : nat) (subDirs : list Internal.GoDir.t) :
  Forall (fun subDir => forall td td',
              rec subDir td = Internal.Ok td' -> extends td td' (preorder subDir)) subDirs ->
  forall td td',
    Internal.AddDir_subDirs Percent rec at_ subDirs td = Internal.Ok td' ->
    extends td td' (flat_map preorder subDirs).
Proof.
  induction subDirs as [|subDir subDirs IH]; intros Hall td td' Hrun.
  - simpl in Hrun. inversion Hrun; subst. simpl. now rewrite app_nil_r.
  - inversion Hall as [|? ? Hrec Hrest]; subst.
    cbn [Internal.AddDir_subDirs] in Hrun.
    destruct (rec subDir td) as [td1|] eqn:Hdir; [|discriminate].
    cbn [Internal.bind] in Hrun.
    destruct (Hrec _ _ Hdir) as (Hk1 & Hi1 & Hc1).
    match type of Hrun with
    | Internal.AddDir_subDirs _ _ _ _ (Internal.update_view _ ?f _) = _ =>
        destruct (update_view_keys at_ f td1 ltac:(reflexivity)) as (Hk2 & Hi2 & Hc2)
    end.
    destruct (IH Hrest _ _ Hrun) as (Hk3 & Hi3 & Hc3).
    rewrite app_nil_r in Hk2.
    split; [|split; congruence].
    cbn [flat_map]. rewrite Hk3, Hk2, Hk1, map_app, <- app_assoc. reflexivity.
Qed.

Lemma AddDir_keys (dir : Internal.GoDir.t) :
  forall td td',
    Internal.AddDir Percent ReadFile dir td = Internal.Ok td' ->
    extends td td' (preorder dir).
Proof.
  induction dir as [item rel subDirs files IH] using GoDir_tree_ind. intros td td' Hrun.
  cbn [Internal.AddDir] in Hrun.
  match type of Hrun with
  | Internal.bind (Internal.AddDir_subDirs _ _ _ _ ?td0) _ = _ => set (td1 := td0) in *
  end.
  destruct (Internal.AddDir_subDirs Percent (Internal.AddDir Percent ReadFile)
              (List.length (Internal.TemplateData.Views td)) subDirs td1) as [td2|] eqn:Hsub;
    [|discriminate].
  cbn [Internal.bind] in Hrun.
  destruct (AddDir_subDirs_keys _ _ _ IH _ _ Hsub) as (Hk2 & Hi2 & Hc2).
  destruct (AddDir_files_keys _ _ _ _ Hrun) as (Hk3 & Hi3 & Hc3).
  assert (Hk1 : view_keys td1
                = (view_keys td
                   ++ [node_key (NDir (Internal.GoDir.mk item rel subDirs files))])%list).
  { unfold td1, view_keys, Internal.append_view. simpl. now rewrite map_app. }
  split; [|split].
  - cbn [preorder map]. rewrite Hk3, Hk2, Hk1, map_app, <- !app_assoc. reflexivity.
  - rewrite Hi3, Hi2. reflexivity.
  - rewrite Hc3, Hc2. reflexivity.
Qed.

(** Property X8.
    When [Report] succeeds, the data handed to the template hold one view
    per node reachable from the display root, in pre-order, each under the
    identifier of its node and flagged as a directory or not; the initial
    identifier is that of the display root, whose view is the first one; and
    the cut lines are those of the project. *)
Theorem Report_views (gp : Internal.GoProject.t) (data : Internal.TemplateData.t) :
  Internal.Report Percent ReadFile gp = Internal.Ok data ->
  view_keys data = map node_key (preorder (Internal.initialDir gp)) /\
  Internal.TemplateData.InitialID data
  = Internal.GoListItem.ID (Internal.GoDir.Item (Internal.initialDir gp)) /\
  hd_error (view_keys data) = Some (Internal.TemplateData.InitialID data, true) /\
  Internal.TemplateData.Cutlines data = Internal.GoProject.Cutlines gp.
Proof.
  unfold Internal.Report. intros Hrun.
  destruct (AddDir_keys _ _ _ Hrun) as (Hk & Hi & Hc). simpl in Hk, Hi, Hc.
  split; [exact Hk|]. split; [exact Hi|]. split; [|exact Hc].
  rewrite Hk, Hi. now destruct (Internal.initialDir gp).
Qed.

End Keys.

Lemma Report_views_witness :
  let cutlines := Config.Cutlines.mk (Float64.of_int 70) (Float64.of_int 40) in
  let Percent := fun item : Internal.GoListItem.t =>
                   Float64.of_int (Internal.GoListItem.StmtCoveredCount item) in
  let ReadFile := fun _ : string => Some "package p" in
  let a := Internal.GoFile.mk (Internal.GoListItem.mk "pkg-a.go" "a.go" 1 1)
             "/src/pkg/a.go" "pkg/a.go" [block 1 1 1] in
  let pkg := Internal.GoDir.mk (Internal.GoListItem.mk "pkg" "pkg" 1 1) "pkg" [] [a] in
  let root := Internal.GoDir.mk (Internal.GoListItem.mk "root" "root" 1 1) "." [pkg] [] in
  let gp := Internal.GoProject.mk "." cutlines root in
  exists data,
    Internal.Report Percent ReadFile gp = Internal.Ok data /\
    view_keys data = [("pkg", true); ("pkg-a.go", false)] /\
    Internal.TemplateData.InitialID data = "pkg".
Proof.
  intros cutlines Percent ReadFile a pkg root gp.
  eexists. split; [reflexivity|].
  match goal with
  | |- view_keys ?data = _ /\ _ =>
      destruct (Report_views Percent ReadFile gp data eq_refl) as (Hk & Hi & _)
  end.
  split; [exact Hk|exact Hi].
Defined.

(** ** Collapsing keeps the files *)

Lemma initialDir_loop_files (dir : Internal.GoDir.t) :
  files_under (Internal.initialDir_loop dir) = files_under dir /\
  In (NDir (Internal.initialDir_loop dir)) (preorder dir).
Proof.
  induction dir as [item rel subDirs files IH] using GoDir_tree_ind.
  destruct subDirs as [|subDir [|subDir' subDirs]]; try (split; [reflexivity|now left]).
  destruct files as [|file files]; [|split; [reflexivity|now left]].
  inversion IH as [|? ? [Hfiles Hin] _]; subst.
  cbn [Internal.initialDir_loop]. split.
  - rewrite Hfiles. cbn [files_under flat_map]. now rewrite !app_nil_r.
  - cbn [preorder flat_map]. right. rewrite !app_nil_r. exact Hin.
Qed.

(** Property X9.
    Whatever the root path, the display root is a directory of the tree,
    and the files under it are all the files of the tree: the directories that
    the collapsing loop steps over hold no file of their own. *)
Theorem initialDir_keeps_files (gp : Internal.GoProject.t) :
  files_under (Internal.initialDir gp) = files_under (Internal.GoProject.Root gp) /\
  In (NDir (Internal.initialDir gp)) (preorder (Internal.GoProject.Root gp)).
Proof.
  unfold Internal.initialDir.
  destruct (String.eqb (Internal.GoProject.RootPath gp) ".").
  - apply initialDir_loop_files.
  - split; [reflexivity|]. destruct (Internal.GoProject.Root gp). now left.
Qed.

(** ** Exact percentages *)

Import Rounding.

(** A positive normal value divided by itself is exactly one. *)
Lemma SFdiv_self (m : positive) (e : Z) :
  2 ^ 52 <= Zpos m < 2 ^ 53 -> -52 <= e <= 11 ->
  SF64div (S754_finite false m e) (S754_finite false m e)
  = S754_finite false (2 ^ 52)%positive (-52).
Proof.
  intros Hm He.
  unfold SF64div, SFdiv, SFdiv_core_binary.
  rewrite (Zdigits2_unique (Zpos m) 53) by (simpl; lia).
  unfold fexp, emin, prec, emax.
  replace (Z.min (Z.max (53 + e - (53 + e) - 53) (3 - 1024 - 53)) (e - e)) with (-53) by lia.
  replace (e - e - -53) with 53 by lia.
  rewrite Z.shiftl_mul_pow2 by lia.
  destruct (Z.div_eucl (Zpos m * 2 ^ 53) (Zpos m)) as [q r] eqn:Hdiv.
  assert (Hq : q = 2 ^ 53).
  { transitivity (Zpos m * 2 ^ 53 / Zpos m); [unfold Z.div; now rewrite Hdiv|].
    rewrite Z.mul_comm. apply Z.div_mul. lia. }
  assert (Hr : r = 0).
  { transitivity ((Zpos m * 2 ^ 53) mod Zpos m); [unfold Z.modulo; now rewrite Hdiv|].
    rewrite Z.mul_comm. apply Z.mod_mul. lia. }
  subst q r. cbn [xorb].
  assert (Hloc : new_location (Zpos m) 0 = loc_Exact).
  { unfold new_location, new_location_even, new_location_odd.
    now destruct (Z.even (Zpos m)). }
  rewrite Hloc.
  destruct (binary_round_aux_normal false (2 ^ 53) (-53) loc_Exact)
    as (M & Hrun & _ & _ & Hexact); try (simpl; lia).
  specialize (Hexact eq_refl). unfold prec, emax in Hrun.
  rewrite Hrun, Hexact. reflexivity.
Qed.

(** Property X10.
    With every statement covered the percentage is exactly 100, and with
    none covered exactly 0, for every statement count of an [int]: the
    division of a [float64] by itself and the product by 100 are not rounded.
    [fileItemHTML] then says safe, respectively danger. *)
Theorem percent_of_full_and_no_coverage (numStmt : Z) :
  0 < numStmt < 2 ^ 63 ->
  Legacy.openHeadingHTML_percent numStmt numStmt = Float64.of_int 100 /\
  Legacy.fileItemHTML_vars numStmt numStmt = (Float64.of_int 100, "safe") /\
  Legacy.openHeadingHTML_percent 0 numStmt = Float64.zero /\
  Legacy.fileItemHTML_vars 0 numStmt = (Float64.zero, "danger").
Proof.
  intros Hn.
  destruct (of_int_normal numStmt Hn) as (m & e & Hy & Hm & He).
  unfold Legacy.openHeadingHTML_percent, Legacy.fileItemHTML_vars,
    Float64.mul, Float64.div, Float64.gtb, Float64.ltb.
  destruct (Z.eqb_spec numStmt 0) as [Hz|_]; [lia|].
  rewrite Hy, (SFdiv_self m e Hm He).
  repeat split; reflexivity.
Qed.

Lemma percent_of_full_and_no_coverage_witness :
  Legacy.openHeadingHTML_percent 3 3 = Float64.of_int 100 /\
  Legacy.fileItemHTML_vars 3 3 = (Float64.of_int 100, "safe") /\
  Legacy.openHeadingHTML_percent 0 3 = Float64.zero /\
  Legacy.fileItemHTML_vars 0 3 = (Float64.zero, "danger").
Proof.
  apply (percent_of_full_and_no_coverage 3). lia.
Defined.

(** ** The two classifiers *)

(** The percentage of a count with [0 <= numStmtCovered <= numStmt] is
    zero or a positive finite value. *)
Lemma openHeadingHTML_percent_nonneg (numStmtCovered numStmt : Z) :
  0 <= numStmtCovered <= numStmt -> 0 < numStmt < 2 ^ 63 ->
  SFleb Float64.zero (Legacy.openHeadingHTML_percent numStmtCovered numStmt) = true.
Proof.
  intros Hc Hn.
  unfold Legacy.openHeadingHTML_percent, Float64.mul, Float64.div.
  destruct (Z.eqb_spec numStmt 0) as [Hz|_]; [lia|].
  destruct (of_int_normal numStmt Hn) as (my & ey & Hy & Hmy & Hey).
  destruct (Z.eq_dec numStmtCovered 0) as [->|Hcz].
  - rewrite Hy. reflexivity.
  - destruct (of_int_normal numStmtCovered ltac:(lia)) as (mx & ex & Hx & Hmx & Hex).
    pose proof (of_int_mono numStmtCovered numStmt ltac:(lia) ltac:(lia)) as Hle.
    rewrite Hx, Hy in Hle |- *.
    destruct (SFdiv_le_one mx my ex ey Hmx Hmy Hex Hey Hle)
      as (mq & eq & Hq & Hmq & Heq & Hone).
    rewrite Hq. now apply SFmul_100_bounds.
Qed.

(** A value that is not a NaN is below, equal to or above 70. *)
Lemma SFcompare_70 (p : spec_float) :
  SFleb Float64.zero p = true ->
  (SFltb p (Float64.of_int 70) = true /\ SFeqb p (Float64.of_int 70) = false
   /\ SFltb (Float64.of_int 70) p = false) \/
  (SFltb p (Float64.of_int 70) = false /\ SFeqb p (Float64.of_int 70) = true
   /\ SFltb (Float64.of_int 70) p = false) \/
  (SFltb p (Float64.of_int 70) = false /\ SFeqb p (Float64.of_int 70) = false
   /\ SFltb (Float64.of_int 70) p = true).
Proof.
  intros Hp. unfold SFltb, SFeqb.
  destruct (SFcompare p (Float64.of_int 70)) as [c|] eqn:Hc.
  - rewrite (SFcompare_antisym _ _ _ Hc). destruct c; simpl; tauto.
  - exfalso. destruct p as [s|s| |s m e]; try destruct s; discriminate.
Qed.

(** Property X11.
    [fileItemHTML], with its fixed thresholds, and
    [NewTemplateListItemData] at the cut lines 70 and 40 give an item with
    [0 <= numStmtCovered <= numStmt] and [numStmt > 0] the same class, unless
    its percentage is exactly 70: [fileItemHTML] then says warning (it asks
    for more than 70) and [NewTemplateListItemData] safe (it asks for at least
    the safe cut line). *)
Theorem fileItemHTML_class_and_NewTemplateListItemData
  (id title : string) (numStmtCovered numStmt : Z) :
  0 <= numStmtCovered <= numStmt -> 0 < numStmt < 2 ^ 63 ->
  let percent := Legacy.fileItemHTML_percent numStmtCovered numStmt in
  let class := snd (Legacy.fileItemHTML_vars numStmtCovered numStmt) in
  let className :=
    item_class (fun _ => percent) (Internal.GoListItem.mk id title numStmtCovered numStmt)
      (Config.Cutlines.mk (Float64.of_int 70) (Float64.of_int 40)) in
  (SFeqb percent (Float64.of_int 70) = false -> class = className) /\
  (SFeqb percent (Float64.of_int 70) = true -> class = "warning" /\ className = "safe").
Proof.
  intros Hc Hn percent class className.
  pose proof (openHeadingHTML_percent_nonneg _ _ Hc Hn) as Hp.
  assert (Hvars : Legacy.fileItemHTML_vars numStmtCovered numStmt
                  = (Legacy.openHeadingHTML_percent numStmtCovered numStmt,
                     if SFltb (Float64.of_int 70)
                          (Legacy.openHeadingHTML_percent numStmtCovered numStmt)
                     then "safe"
                     else if SFltb (Legacy.openHeadingHTML_percent numStmtCovered numStmt)
                               (Float64.of_int 40)
                          then "danger" else "warning")).
  { unfold Legacy.fileItemHTML_vars, Legacy.openHeadingHTML_percent, Float64.gtb, Float64.ltb.
    destruct (Z.eqb_spec numStmt 0) as [Hz|_]; [lia|].
    destruct (SFltb (Float64.of_int 70) _); [reflexivity|].
    destruct (SFltb _ (Float64.of_int 40)); reflexivity. }
  assert (Hpercent : percent = Legacy.openHeadingHTML_percent numStmtCovered numStmt)
    by apply fileItemHTML_percent_eq.
  rewrite <- Hpercent in Hp, Hvars.
  assert (Hclass : class = if SFltb (Float64.of_int 70) percent then "safe"
                           else if SFltb percent (Float64.of_int 40) then "danger"
                                else "warning").
  { unfold class. now rewrite Hvars. }
  assert (Hname : className = if SFltb percent (Float64.of_int 40) then "danger"
                              else if SFltb percent (Float64.of_int 70) then "warning"
                                   else "safe").
  { unfold className, item_class, Internal.NewTemplateListItemData, Float64.ltb. simpl.
    destruct (Z.gtb_spec numStmt 0) as [_|]; [reflexivity|lia]. }
  rewrite Hclass, Hname.
  assert (H4070 : forall x, SFltb x (Float64.of_int 40) = true ->
                            SFltb x (Float64.of_int 70) = true).
  { intros x Hx. destruct (SFltb x (Float64.of_int 70)) eqn:H70; [reflexivity|].
    exfalso. unfold SFltb in Hx, H70.
    destruct x as [s|s| |s m e]; try destruct s; try discriminate.
    cbn [SFcompare Float64.of_int] in Hx, H70.
    change (Float64.of_int 40) with (S754_finite false 5629499534213120 (-47)) in Hx.
    change (Float64.of_int 70) with (S754_finite false 4925812092436480 (-46)) in H70.
    cbn [SFcompare] in Hx, H70.
    destruct (Z.compare_spec e (-47)); destruct (Z.compare_spec e (-46));
      try discriminate; lia. }
  destruct (SFcompare_70 percent Hp) as [(Hlt & Heq & Hgt)|[(Hlt & Heq & Hgt)|(Hlt & Heq & Hgt)]];
    rewrite Hlt, Heq, Hgt.
  - split; [|discriminate]. intros _. reflexivity.
  - split; [discriminate|]. intros _.
    destruct (SFltb percent (Float64.of_int 40)) eqn:H40; [|split; reflexivity].
    rewrite (H4070 _ H40) in Hlt. discriminate.
  - split; [|discriminate]. intros _.
    destruct (SFltb percent (Float64.of_int 40)) eqn:H40; [|reflexivity].
    rewrite (H4070 _ H40) in Hlt. discriminate.
Qed.

Lemma fileItemHTML_class_and_NewTemplateListItemData_witness :
  snd (Legacy.fileItemHTML_vars 7 10) = "warning" /\
  item_class (fun _ => Legacy.fileItemHTML_percent 7 10)
    (Internal.GoListItem.mk "id" "title" 7 10)
    (Config.Cutlines.mk (Float64.of_int 70) (Float64.of_int 40)) = "safe".
Proof.
  apply (proj2 (fileItemHTML_class_and_NewTemplateListItemData "id" "title" 7 10
                  ltac:(lia) ltac:(lia))).
  reflexivity.
Defined.

(** ** Distinct identifiers *)

Lemma Legacy_GoDir_tree_ind (P : Legacy.GoDir.t -> Prop) :
  (forall dirname subDirs files numStmtCovered numStmt,
      Forall P subDirs ->
      P (Legacy.GoDir.mk dirname subDirs files numStmtCovered numStmt)) ->
  forall dir, P dir.
Proof.
  intros H. fix IH 1. intros [dirname subDirs files c n].
  apply H. induction subDirs as [|subDir subDirs IHl]; constructor.
  - apply IH.
  - exact IHl.
Qed.

Lemma string_app_inj (p a b : string) : p ++ a = p ++ b -> a = b.
Proof.
  induction p as [|c p IH]; simpl; [auto|]. intros H. inversion H. auto.
Qed.

(** The identifiers under a directory are its own identifier followed by
    the suffixes of the nodes. *)
Lemma write_ids_suffixes (dir : Legacy.GoDir.t) :
  forall id, map snd (Legacy.write_ids dir id) = map (fun suffix => id ++ suffix) (id_suffixes dir).
Proof.
  induction dir as [dirname subDirs files c n IH] using Legacy_GoDir_tree_ind.
  intros id. cbn [Legacy.write_ids id_suffixes map].
  rewrite string_app_nil_r. f_equal. rewrite !map_app. f_equal.
  - induction subDirs as [|subDir subDirs IHl]; [reflexivity|].
    inversion IH as [|? ? Hsub Hrest]; subst.
    cbn [flat_map]. rewrite !map_app, (IHl Hrest). f_equal.
    rewrite Hsub, map_map. apply map_ext. intros suffix.
    rewrite !string_app_assoc. reflexivity.
  - rewrite !map_map. apply map_ext. intros file. reflexivity.
Qed.

(** A suffix is empty or starts with a hyphen. *)
Lemma id_suffixes_shape (dir : Legacy.GoDir.t) (suffix : string) :
  In suffix (id_suffixes dir) -> suffix = EmptyString \/ exists rest, suffix = String "-" rest.
Proof.
  destruct dir as [dirname subDirs files c n]. cbn [id_suffixes].
  intros [H|H]; [now left|right].
  apply in_app_or in H as [H|H].
  - apply in_flat_map in H as (subDir & _ & H).
    apply in_map_iff in H as (s & <- & _). eexists. reflexivity.
  - apply in_map_iff in H as (file & <- & _). eexists. reflexivity.
Qed.

(** The base name that follows the leading hyphen of a suffix. *)
Lemma suffix_name (name rest : string) :
  no_hyphen name = true ->
  rest = EmptyString \/ (exists rest', rest = String "-" rest') ->
  nth 1 (Split ("-" ++ name ++ rest) "-") EmptyString = name.
Proof.
  intros Hname Hrest. change ("-" ++ name ++ rest) with (String "-" (name ++ rest)).
  cbn [Split]. rewrite Ascii.eqb_refl. cbn [nth].
  destruct Hrest as [->|[rest' ->]].
  - rewrite string_app_nil_r, (Split_no_sep _ _ Hname). reflexivity.
  - rewrite (Split_app_sep _ _ _ Hname). reflexivity.
Qed.

Lemma NoDup_flat_map_by_key {A B K : Type} (g : A -> list B) (key : B -> K) (name : A -> K)
  (l : list A) :
  (forall x, In x l -> forall y, In y (g x) -> key y = name x) ->
  NoDup (map name l) ->
  (forall x, In x l -> NoDup (g x)) ->
  NoDup (flat_map g l).
Proof.
  induction l as [|x l IH]; intros Hkey Hnames Heach; [constructor|].
  cbn [flat_map]. inversion Hnames as [|? ? Hnotin Hnames']; subst.
  apply NoDup_app.
  - apply Heach. now left.
  - apply IH; [|assumption|]; intros; [apply Hkey|apply Heach]; simpl; auto.
  - intros y Hy Hy'. apply in_flat_map in Hy' as (x' & Hx' & Hy').
    apply Hnotin. apply in_map_iff. exists x'. split; [|assumption].
    rewrite <- (Hkey x (or_introl eq_refl) y Hy). symmetry. apply Hkey; simpl; auto.
Qed.

Lemma flat_map_map {A B C : Type} (f : A -> B) (g : B -> list C) (l : list A) :
  flat_map g (map f l) = flat_map (fun x => g (f x)) l.
Proof.
  induction l as [|x l IH]; simpl; [reflexivity|]. now rewrite IH.
Qed.

Lemma flat_map_singleton {A B : Type} (g : A -> list B) (h : A -> B) (l : list A) :
  (forall x, g x = [h x]) -> flat_map g l = map h l.
Proof.
  intros H. induction l as [|x l IH]; simpl; [reflexivity|]. now rewrite H, IH.
Qed.

Lemma id_suffixes_NoDup (dir : Legacy.GoDir.t) : well_named dir -> NoDup (id_suffixes dir).
Proof.
  induction dir as [dirname subDirs files c n IH] using Legacy_GoDir_tree_ind.
  intros Hwn. inversion Hwn as [? ? ? ? ? Hnames Hhyphen Hsubs]; subst.
  cbn [id_suffixes].
  set (g := fun child : Legacy.GoDir.t + Legacy.GoFile.t =>
              match child with
              | inl subDir =>
                  map (fun suffix => "-" ++ Base (Legacy.GoDir.dirname subDir) ++ suffix)
                    (id_suffixes subDir)
              | inr file => ["-" ++ Base (Legacy.GoFile.filename file)]
              end).
  set (name := fun child : Legacy.GoDir.t + Legacy.GoFile.t =>
                 match child with
                 | inl subDir => Base (Legacy.GoDir.dirname subDir)
                 | inr file => Base (Legacy.GoFile.filename file)
                 end).
  set (children := (map inl subDirs ++ map inr files)%list).
  assert (Hflat : List.app
                    (flat_map
                       (fun subDir =>
                          map (fun suffix =>
                                 "-" ++ Base (Legacy.GoDir.dirname subDir) ++ suffix)
                            (id_suffixes subDir)) subDirs)
                    (map (fun file => "-" ++ Base (Legacy.GoFile.filename file)) files)
                  = flat_map g children).
  { unfold children. rewrite flat_map_app, !flat_map_map.
    rewrite (flat_map_singleton (fun file => g (inr file))
               (fun file => "-" ++ Base (Legacy.GoFile.filename file)) files)
      by reflexivity.
    reflexivity. }
  assert (Hchild : map name children = child_names subDirs files).
  { unfold children, child_names. rewrite map_app, !map_map. reflexivity. }
  assert (Hhyp : forall child, In child children -> no_hyphen (name child) = true).
  { intros child Hin. rewrite Forall_forall in Hhyphen. apply Hhyphen.
    rewrite <- Hchild. now apply in_map. }
  rewrite Hflat. constructor.
  - intros Hin. apply in_flat_map in Hin as (child & _ & Hin).
    destruct child as [subDir|file]; simpl in Hin.
    + apply in_map_iff in Hin as (s & Hs & _). discriminate.
    + destruct Hin as [Hin|[]]. discriminate.
  - apply (NoDup_flat_map_by_key g (fun y => nth 1 (Split y "-") EmptyString) name).
    + intros child Hin y Hy. specialize (Hhyp child Hin).
      destruct child as [subDir|file]; simpl in Hy.
      * apply in_map_iff in Hy as (s & <- & Hs).
        apply suffix_name; [exact Hhyp|]. eapply id_suffixes_shape. exact Hs.
      * destruct Hy as [<-|[]].
        rewrite <- (string_app_nil_r (Base (Legacy.GoFile.filename file))) at 1.
        apply suffix_name; [exact Hhyp|now left].
    + now rewrite Hchild.
    + intros child Hin. destruct child as [subDir|file]; simpl.
      * apply Injective_map_NoDup.
        -- intros s1 s2 Heq. inversion Heq as [Heq'].
           now apply string_app_inj in Heq'.
        -- unfold children in Hin. apply in_app_or in Hin as [Hin|Hin].
           ++ apply in_map_iff in Hin as (d & Hd & Hin). inversion Hd; subst d.
              rewrite Forall_forall in IH, Hsubs. apply IH; auto.
           ++ apply in_map_iff in Hin as (f & Hf & _). discriminate.
      * repeat constructor. simpl. tauto.
Qed.

(** Property X12.
    In a tree where the children of every directory have distinct base
    names without a hyphen, [GoDir.write] gives distinct nodes distinct
    identifiers, whatever the identifier of the root is. *)
Theorem write_identifiers_distinct (root : Legacy.GoDir.t) (id : string) :
  well_named root ->
  NoDup (map snd (Legacy.write_ids root id)).
Proof.
  intros Hwn. rewrite write_ids_suffixes.
  apply Injective_map_NoDup.
  - intros s1 s2. apply string_app_inj.
  - now apply id_suffixes_NoDup.
Qed.

Lemma write_identifiers_distinct_witness :
  NoDup
    (map snd
       (Legacy.write_ids
          (Legacy.GoDir.mk "."
             [Legacy.GoDir.mk "a" [] [Legacy.GoFile.mk "a/b.go" [] 1 1] 1 1]
             [Legacy.GoFile.mk "b.go" [] 0 1] 1 2)
          "root")).
Proof.
  apply write_identifiers_distinct.
  constructor.
  - repeat constructor; simpl; intuition discriminate.
  - repeat constructor.
  - constructor; [|constructor].
    constructor; repeat constructor; simpl; tauto.
Defined.

(** ** The cursors stay in range *)

(** Property X13.
    In both line annotators the cursor into the profile never moves back,
    advances by at most one block per line and never passes the end of the
    profile; and whenever the cursor is below the end after the step of
    [GoFile.write], a count is selected. *)
Theorem cursors_stay_in_range (Profile : list ProfileBlock) (i : nat) (lineNumber : Z) :
  (i <= List.length Profile)%nat ->
  let new := Internal.select_count Profile i lineNumber in
  let old := Legacy.select_count Profile i lineNumber in
  (i <= fst new <= i + 1)%nat /\ (fst new <= List.length Profile)%nat /\
  fst old = fst new /\
  ((fst old < List.length Profile)%nat <-> snd old <> None).
Proof.
  intros Hi new old. unfold new, old.
  rewrite select_count_skipn, legacy_select_count_skipn.
  destruct (skipn i Profile) as [|p0 rest] eqn:Hs.
  - apply skipn_nil_inv in Hs. simpl. repeat split; try lia; intros H; first [lia | congruence].
  - destruct (skipn_cons_inv _ _ _ _ Hs) as (_ & Hlt & Hrest).
    destruct (EndLine p0 <? lineNumber).
    + destruct rest as [|p1 rest'].
      * apply skipn_nil_inv in Hrest. simpl.
        repeat split; try lia; intros H; first [lia | congruence].
      * destruct (skipn_cons_inv _ _ _ _ Hrest) as (_ & Hlt1 & _). simpl.
        repeat split; try lia; intros H; first [lia | discriminate].
    + simpl. repeat split; try lia; intros H; first [lia | discriminate].
Qed.

Lemma cursors_stay_in_range_witness :
  (0 <= fst (Internal.select_count [block 1 1 3; block 2 2 0] 0 2) <= 0 + 1)%nat /\
  (fst (Internal.select_count [block 1 1 3; block 2 2 0] 0 2) <= 2)%nat /\
  fst (Legacy.select_count [block 1 1 3; block 2 2 0] 0 2)
  = fst (Internal.select_count [block 1 1 3; block 2 2 0] 0 2) /\
  ((fst (Legacy.select_count [block 1 1 3; block 2 2 0] 0 2) < 2)%nat <->
   snd (Legacy.select_count [block 1 1 3; block 2 2 0] 0 2) <> None).
Proof.
  apply (cursors_stay_in_range [block 1 1 3; block 2 2 0] 0 2). simpl. lia.
Defined.
